(** * ros-video-recorder: the frame buffers, the compositor, the tick loop
      and the start/stop services of [scripts/recorder.py]

    The development follows the Python source.  Clock readings
    ([time.time()], float seconds in the source) are integer microseconds
    here; images are row-major arrays of BGR pixels with an explicit shape;
    a method that mutates [self] returns the new object next to its value;
    a Python exception is a [Raise] result. *)

From stdpp Require Import list strings sorting pretty gmap.
From Stdlib Require Import ZArith Lia.
From Stdlib.Strings Require Import Byte Ascii.

Open Scope Z_scope.

(** ** Python results *)

Inductive exn : Type :=
| AttributeError (attr : string)
| ValueError (msg : string)
| cv2_error (msg : string).

(** [NoFuel] is not a Python outcome: it marks a loop of the model that was
    given too few iterations. *)
Inductive result (A : Type) : Type :=
| Ok (a : A)
| Raise (e : exn)
| NoFuel.
Arguments Ok {A} a.
Arguments Raise {A} e.
Arguments NoFuel {A}.

Global Instance result_ret : MRet result := λ A a, Ok a.
Global Instance result_bind : MBind result := λ A B f m,
  match m with
  | Ok a => f a
  | Raise e => Raise e
  | NoFuel => NoFuel
  end.

(** ** Images: [numpy] arrays of shape (rows, cols, 3), dtype uint8 *)

Definition pixel : Type := byte * byte * byte.
Definition black : pixel := (x00, x00, x00)%byte.

Record ndarray : Type := NdArray {
  nd_rows : nat;
  nd_cols : nat;
  nd_data : list (list pixel)
}.

Definition nd_wf (a : ndarray) : Prop :=
  length (nd_data a) = nd_rows a ∧
  Forall (λ row, length row = nd_cols a) (nd_data a).

(** [a[i, j]] for indexes inside the array. *)
Definition nd_get (a : ndarray) (i j : nat) : option pixel :=
  nd_data a !! i ≫= λ row, row !! j.

(** ** [class VideoFrames] *)

Record VideoFrames : Type := mkVideoFrames {
  frames : list (Z * ndarray);
  target_x : Z;
  target_y : Z;
  target_w : Z;
  target_h : Z
}.

Definition set_frames (self : VideoFrames) (fs : list (Z * ndarray)) : VideoFrames :=
  mkVideoFrames fs (target_x self) (target_y self) (target_w self) (target_h self).

(** [callback_image], after a successful conversion, at clock reading [now]:
    [self.frames.append((time.time(), cv_image))]. *)
Definition callback_image (self : VideoFrames) (now : Z) (cv_image : ndarray) : VideoFrames :=
  set_frames self (frames self ++ [(now, cv_image)]).

(** [get_latest(at_time, remove_older)].  [last fs] is [None] exactly when
    [len(fs) == 0], and otherwise it is [fs[-1]]; [len(fs) - 1] is then a
    natural number, so the slice [self.frames[len(fs) - 1:]] is [drop]. *)
Definition get_latest (self : VideoFrames) (at_time : Z) (remove_older : bool)
  : option ndarray * VideoFrames :=
  let fs := filter (λ x, x.1 ≤ at_time) (frames self) in
  match last fs with
  | None => (None, self)
  | Some f =>
      (Some f.2,
       if remove_older
       then set_frames self (drop (length fs - 1)%nat (frames self))
       else self)
  end.

(** Timestamps in arrival order never decrease. *)
Definition nondecreasing (fs : list (Z * ndarray)) : Prop :=
  StronglySorted (λ x y, x.1 ≤ y.1) fs.

(** The buffers a source can produce: frames arrive with a clock reading
    that is not below any stored one, and queries come in between. *)
Inductive reachable : VideoFrames → Prop :=
| reachable_new x y w h :
    reachable (mkVideoFrames [] x y w h)
| reachable_append self now cv_image :
    reachable self →
    Forall (λ f, f.1 ≤ now) (frames self) →
    reachable (callback_image self now cv_image)
| reachable_query self at_time remove_older :
    reachable self →
    reachable (get_latest self at_time remove_older).2.

(** ** Slices and slice assignment of [numpy] *)

(** One bound of [a[start:stop]] on an axis of length [len]: a negative
    bound counts from the end, and every bound is clipped to the axis. *)
Definition adjust_index (v len : Z) : Z :=
  if v <? 0 then Z.max 0 (v + len) else Z.min v len.

(** First index and number of indexes of [a[start:stop]]. *)
Definition slice_indices (start stop len : Z) : nat * nat :=
  let s := adjust_index start len in
  let e := adjust_index stop len in
  (Z.to_nat s, Z.to_nat (Z.max 0 (e - s))).

Definition within (first count i : nat) : bool :=
  ((first <=? i) && (i <? first + count))%nat.

(** An axis of the value of length [d] fits a target axis of length [n]
    when they are equal or [d] is 1 (the value is then repeated). *)
Definition broadcast_ok (d n : nat) : bool := ((d =? n) || (d =? 1))%nat.

Definition broadcast_index (d k : nat) : nat := if (d =? 1)%nat then 0%nat else k.

(** [canvas[y0:y1, x0:x1] = value], both of three channels.  The value
    must fit the target on both axes, else [ValueError]; the pixels of
    the target are then overwritten one by one.  (The [default] only
    covers a value whose rows are shorter than its shape says.) *)
Definition setitem_slices (canvas : ndarray) (y0 y1 x0 x1 : Z) (value : ndarray)
  : result ndarray :=
  let '(r0, nr) := slice_indices y0 y1 (Z.of_nat (nd_rows canvas)) in
  let '(c0, nc) := slice_indices x0 x1 (Z.of_nat (nd_cols canvas)) in
  if broadcast_ok (nd_rows value) nr && broadcast_ok (nd_cols value) nc then
    Ok (NdArray (nd_rows canvas) (nd_cols canvas)
          (imap (λ i row,
             imap (λ j p,
               if within r0 nr i && within c0 nc j
               then default p (nd_get value
                                 (broadcast_index (nd_rows value) (i - r0))
                                 (broadcast_index (nd_cols value) (j - c0)))
               else p) row)
             (nd_data canvas)))
  else Raise (ValueError "could not broadcast input array").

(** [np.zeros((h, w, 3), np.uint8)]. *)
Definition np_zeros (h w : Z) : result ndarray :=
  if (h <? 0) || (w <? 0) then Raise (ValueError "negative dimensions are not allowed")
  else Ok (NdArray (Z.to_nat h) (Z.to_nat w)
             (replicate (Z.to_nat h) (replicate (Z.to_nat w) black))).

(** The rectangle of the canvas that [canvas[y:y+h, x:x+w]] addresses for
    a source, on a canvas of [rows] by [cols]. *)
Definition in_target (frame_w : VideoFrames) (rows cols i j : nat) : bool :=
  let '(r0, nr) := slice_indices (target_y frame_w)
                     (target_y frame_w + target_h frame_w) (Z.of_nat rows) in
  let '(c0, nc) := slice_indices (target_x frame_w)
                     (target_x frame_w + target_w frame_w) (Z.of_nat cols) in
  within r0 nr i && within c0 nc j.

(** A source draws on pixel [(i, j)] in the tick at [curr_time] when it
    has a frame for that time and the pixel lies in its rectangle. *)
Definition draws_on (frame_w : VideoFrames) (curr_time : Z) (rows cols i j : nat)
  : bool :=
  match (get_latest frame_w curr_time true).1 with
  | Some _ => in_target frame_w rows cols i j
  | None => false
  end.

(** A region of non-negative offsets and positive size inside a canvas of
    [height] rows and [width] columns. *)
Definition region_fits (frame_w : VideoFrames) (height width : Z) : Prop :=
  0 ≤ target_x frame_w ∧ 0 ≤ target_y frame_w ∧
  0 < target_w frame_w ∧ 0 < target_h frame_w ∧
  target_x frame_w + target_w frame_w ≤ width ∧
  target_y frame_w + target_h frame_w ≤ height.

(** A decoded camera image: a well-formed array with at least one pixel. *)
Definition picture (a : ndarray) : Prop :=
  nd_wf a ∧ (0 < nd_rows a)%nat ∧ (0 < nd_cols a)%nat.

(** ** The recorder and its surroundings *)

Definition second : Z := 1000000.

Record VideoWriter : Type := mkVideoWriter {
  vw_file : string;
  vw_written : list ndarray;
  vw_released : bool
}.

(** [output_file] is [None] while the attribute has not been assigned;
    [video_writer] is [None] for Python's [None] (it is read only after
    [record_spin] has assigned it); [pub_img] tells whether a publisher
    is set. *)
Record VideoRecorder : Type := mkVideoRecorder {
  frame_wrappers : list VideoFrames;
  start_time : Z;
  end_time : Z;
  pub_img : bool;
  fps : Z;
  interval : Z;
  output_width : Z;
  output_height : Z;
  record_flag : bool;
  output_path : string;
  output_file : option string;
  video_writer : option VideoWriter
}.

(** What the recorder sees and does outside itself: the wall clock, ROS
    shutdown, the sleeps it made, the log and the broadcast frames. *)
Record world : Type := mkWorld {
  now : Z;
  is_shutdown : bool;
  slept : list Z;
  loginfo : list string;
  published : list ndarray
}.

Definition set_frame_wrappers (self : VideoRecorder) (ws : list VideoFrames) :=
  mkVideoRecorder ws (start_time self) (end_time self) (pub_img self) (fps self)
    (interval self) (output_width self) (output_height self) (record_flag self)
    (output_path self) (output_file self) (video_writer self).

Definition set_times (self : VideoRecorder) (st en : Z) :=
  mkVideoRecorder (frame_wrappers self) st en (pub_img self) (fps self)
    (interval self) (output_width self) (output_height self) (record_flag self)
    (output_path self) (output_file self) (video_writer self).

Definition set_record_flag (self : VideoRecorder) (b : bool) :=
  mkVideoRecorder (frame_wrappers self) (start_time self) (end_time self)
    (pub_img self) (fps self) (interval self) (output_width self)
    (output_height self) b (output_path self) (output_file self)
    (video_writer self).

Definition set_output (self : VideoRecorder) (file : option string)
    (vw : option VideoWriter) :=
  mkVideoRecorder (frame_wrappers self) (start_time self) (end_time self)
    (pub_img self) (fps self) (interval self) (output_width self)
    (output_height self) (record_flag self) (output_path self) file vw.

Definition log (msg : string) (w : world) : world :=
  mkWorld (now w) (is_shutdown w) (slept w) (loginfo w ++ [msg]) (published w).

(** Time that passes while the thread computes. *)
Definition elapse (d : Z) (w : world) : world :=
  mkWorld (now w + d) (is_shutdown w) (slept w) (loginfo w) (published w).

(** [rospy.sleep(d)]: the sleep is recorded and the clock moves on by [d]
    (a negative duration returns at once). *)
Definition rospy_sleep (d : Z) (w : world) : world :=
  mkWorld (now w + Z.max 0 d) (is_shutdown w) (slept w ++ [d]) (loginfo w)
    (published w).

Definition publish (canvas : ndarray) (w : world) : world :=
  mkWorld (now w) (is_shutdown w) (slept w) (loginfo w) (published w ++ [canvas]).

Definition shut_down (w : world) : world :=
  mkWorld (now w) true (slept w) (loginfo w) (published w).

(** [VideoRecorder.__init__] without the codec lookup; [1.0 / self.fps] is
    the number of microseconds per output frame. *)
Definition VideoRecorder_init (output_width output_height output_fps : Z)
    (output_path : string) (initial_start : bool) : VideoRecorder :=
  mkVideoRecorder [] (-1) (-1) false output_fps (second / output_fps)
    output_width output_height initial_start output_path None None.

Definition add_subscription (self : VideoRecorder) (subscription : VideoFrames) :=
  set_frame_wrappers self (frame_wrappers self ++ [subscription]).

(** [terminate]: the log line reads [self.output_file] first. *)
Definition terminate (self : VideoRecorder) (w : world)
  : result (VideoRecorder * world) :=
  match output_file self with
  | None => Raise (AttributeError "output_file")
  | Some file =>
      let w := log ("[ros-video-recorder] Video Saved. file=" +:+ file) w in
      Ok (set_record_flag (set_times self (start_time self) (now w)) false, w)
  end.

Definition start_srv_cb (self : VideoRecorder) (w : world)
  : result (VideoRecorder * world) :=
  if record_flag self
  then Ok (self, log "[ros-video-recorder] Record already Started." w)
  else Ok (set_record_flag self true, w).

Definition stop_srv_cb (self : VideoRecorder) (w : world)
  : result (VideoRecorder * world) :=
  if record_flag self
  then terminate self (log "[ros-video-recorder] Record Stopped." w)
  else Ok (self, log "[ros-video-recorder] Record already Stopped." w).

(** [s.replace(old, new)] for a non-empty [old]: occurrences are found
    from the left and do not overlap; [skip] counts the characters of an
    occurrence still to pass over. *)
Fixpoint replace_from (old new : string) (skip : nat) (s : string) : string :=
  match s with
  | EmptyString => EmptyString
  | String c rest =>
      match skip with
      | S k => replace_from old new k rest
      | O =>
          if String.prefix old s
          then new +:+ replace_from old new (String.length old - 1)%nat rest
          else String c (replace_from old new 0%nat rest)
      end
  end.

Definition str_replace (s old new : string) : string := replace_from old new 0%nat s.

(** Where the main thread stands: in the waiting loop of [record_spin], or
    at the head of the [while] of [start_record] with its [curr_time]. *)
Inductive position : Type :=
| InSpin
| InRecord (curr_time : Z).

Record system : Type := mkSystem {
  recorder : VideoRecorder;
  outside : world;
  main : position
}.

(** What can happen next: a service call, a delivered frame for source
    [k], a ROS shutdown, or the main thread running on to its next loop
    head ([work] is the time the tick's computation takes, [fuel] bounds
    the iterations of its waiting loop). *)
Inductive event : Type :=
| CallStart
| CallStop
| Deliver (k : nat) (cv_image : ndarray)
| Shutdown
| MainStep (work : Z) (fuel : nat).

(** The session states of the specification, read off the recorder. *)
Inductive status : Type := Idle | Recording | Stopped.

Definition status_of (s : system) : status :=
  match main s with
  | InRecord _ =>
      if record_flag (recorder s) then Recording
      else if 0 <=? end_time (recorder s) then Stopped else Idle
  | InSpin => if 0 <=? end_time (recorder s) then Stopped else Idle
  end.

(** The waiting loop that ends a tick:
    [while curr_time + self.interval > time.time(): rospy.sleep(self.interval)]. *)
Fixpoint wait_loop (fuel : nat) (curr_time interval : Z) (w : world) : result world :=
  if now w <? curr_time + interval then
    match fuel with
    | O => NoFuel
    | S k => wait_loop k curr_time interval (rospy_sleep interval w)
    end
  else Ok w.

Definition writer_write (canvas : ndarray) (vw : VideoWriter) : VideoWriter :=
  if vw_released vw then vw
  else mkVideoWriter (vw_file vw) (vw_written vw ++ [canvas]) false.

Definition writer_release (vw : VideoWriter) : VideoWriter :=
  mkVideoWriter (vw_file vw) (vw_written vw) true.

Section Compositor.

(** [cv2.resize(src, (w, h))] and the text of
    [datetime.datetime.now().strftime("%Y%m%d_%H%M%S")] at a clock
    reading belong to libraries; they are taken as given. *)
Variable cv2_resize : ndarray → Z → Z → result ndarray.
Variable strftime : Z → string.

(** One pass of the body of [for frame_w in self.frame_wrappers]. *)
Definition draw_source (frame_w : VideoFrames) (curr_time : Z) (canvas : ndarray)
  : result (ndarray * VideoFrames) :=
  let '(f, frame_w') := get_latest frame_w curr_time true in
  match f with
  | None => Ok (canvas, frame_w')
  | Some f =>
      resized ← cv2_resize f (target_w frame_w) (target_h frame_w);
      canvas' ← setitem_slices canvas
                  (target_y frame_w) (target_y frame_w + target_h frame_w)
                  (target_x frame_w) (target_x frame_w + target_w frame_w)
                  resized;
      Ok (canvas', frame_w')
  end.

Fixpoint draw_sources (ws : list VideoFrames) (curr_time : Z) (canvas : ndarray)
  : result (ndarray * list VideoFrames) :=
  match ws with
  | [] => Ok (canvas, [])
  | frame_w :: rest =>
      '(canvas1, frame_w') ← draw_source frame_w curr_time canvas;
      '(canvas2, rest') ← draw_sources rest curr_time canvas1;
      Ok (canvas2, frame_w' :: rest')
  end.

(** The canvas of one tick: lines 112 to 120 of [start_record]. *)
Definition compose (ws : list VideoFrames) (height width curr_time : Z)
  : result (ndarray * list VideoFrames) :=
  canvas ← np_zeros height width;
  draw_sources ws curr_time canvas.

(** One iteration of the [while] of [start_record].  A canvas of
    [np.zeros] always converts to a message, so the publish does not
    fail; an interrupt from the keyboard is not an event of the model. *)
Definition loop_body (self : VideoRecorder) (w : world) (curr_time work : Z)
    (fuel : nat) : result (VideoRecorder * world * Z) :=
  '(canvas, ws) ← compose (frame_wrappers self) (output_height self)
                    (output_width self) curr_time;
  let self := set_frame_wrappers self ws in
  let self := set_output self (output_file self)
                (writer_write canvas <$> video_writer self) in
  let w := if pub_img self then publish canvas w else w in
  let w := elapse work w in
  let w := rospy_sleep (second / 100) w in
  '(self, w) ← (if is_shutdown w && (end_time self <? 0)
                then terminate self w else Ok (self, w));
  w ← wait_loop fuel curr_time (interval self) w;
  Ok (self, w, curr_time + interval self).

(** The end of [record_spin] once its waiting loop is left: the output
    file is opened when a path is set, and [start_record] begins. *)
Definition open_output (self : VideoRecorder) (w : world) : VideoRecorder * world :=
  if bool_decide (output_path self = "") then (set_output self (output_file self) None, w)
  else
    let file := str_replace (output_path self) "[timestamp]" (strftime (now w)) in
    (set_output self (Some file) (Some (mkVideoWriter file [] false)),
     log ("[ros-video-recorder] Record Started. file=" +:+ file) w).

(** The main thread up to its next loop head.  In [record_spin] it
    either waits a second ([rospy.Rate(1)]) or opens the output and
    enters [start_record]; in [start_record] it either runs one tick or
    releases the writer and calls [record_spin] again. *)
Definition main_step (s : system) (work : Z) (fuel : nat) : result system :=
  let self := recorder s in
  let w := outside s in
  match main s with
  | InSpin =>
      if negb (is_shutdown w) && negb (record_flag self)
      then Ok (mkSystem self
                 (log "[ros-video-recorder] Record waiting." (rospy_sleep second w))
                 InSpin)
      else
        let '(self, w) := open_output self w in
        Ok (mkSystem (set_times self (now w) (-1)) w (InRecord (now w)))
  | InRecord curr_time =>
      if ((end_time self <? 0) || (curr_time <=? end_time self)) && record_flag self
      then
        '(self, w, curr_time') ← loop_body self w curr_time work fuel;
        Ok (mkSystem self w (InRecord curr_time'))
      else
        Ok (mkSystem (set_output self (output_file self)
                        (writer_release <$> video_writer self))
              w InSpin)
  end.

Definition step (s : system) (e : event) : result system :=
  match e with
  | CallStart =>
      '(self, w) ← start_srv_cb (recorder s) (outside s);
      Ok (mkSystem self w (main s))
  | CallStop =>
      '(self, w) ← stop_srv_cb (recorder s) (outside s);
      Ok (mkSystem self w (main s))
  | Deliver k cv_image =>
      Ok (mkSystem
            (set_frame_wrappers (recorder s)
               (alter (λ vf, callback_image vf (now (outside s)) cv_image) k
                  (frame_wrappers (recorder s))))
            (outside s) (main s))
  | Shutdown => Ok (mkSystem (recorder s) (shut_down (outside s)) (main s))
  | MainStep work fuel => main_step s work fuel
  end.

Fixpoint run (s : system) (es : list event) : result system :=
  match es with
  | [] => Ok s
  | e :: rest => s' ← step s e; run s' rest
  end.

End Compositor.

(** A resize to run the model with: nearest neighbour, refusing an empty
    source or an empty size as OpenCV does. *)
Definition nn_resize (src : ndarray) (w h : Z) : result ndarray :=
  if (0 <? w) && (0 <? h) && (0 <? nd_rows src)%nat && (0 <? nd_cols src)%nat then
    Ok (NdArray (Z.to_nat h) (Z.to_nat w)
          ((λ i, (λ j, default black
                         (nd_get src (i * nd_rows src / Z.to_nat h)%nat
                                     (j * nd_cols src / Z.to_nat w)%nat))
                 <$> seq 0 (Z.to_nat w))
           <$> seq 0 (Z.to_nat h)))
  else Raise (cv2_error "resize").

(** A stand-in for the formatted date: the clock reading in seconds. *)
Definition seconds_text (t : Z) : string := pretty (t / second).

(** A one-pixel image of one grey level, for examples. *)
Definition px (b : byte) : ndarray := NdArray 1 1 [[(b, b, b)]].

(** ** Start-up: the constructor and the parameters of the node *)

(** What can stop the node before it records. *)
Inductive startup_exn : Type :=
| ZeroDivisionError
| Exception (msg : string)
| IndexError
| IntValueError (text : string).

Inductive startup (A : Type) : Type :=
| Started (a : A)
| Failed (e : startup_exn).
Arguments Started {A} a.
Arguments Failed {A} e.

Global Instance startup_ret : MRet startup := λ A a, Started a.
Global Instance startup_bind : MBind startup := λ A B f m,
  match m with
  | Started a => f a
  | Failed e => Failed e
  end.

(** [s.split(sep)] for a separator of one character: the pieces between
    the separators, at least one piece. *)
Fixpoint split_on (sep : Ascii.ascii) (s : string) : list string :=
  match s with
  | EmptyString => [EmptyString]
  | String c rest =>
      if bool_decide (c = sep) then EmptyString :: split_on sep rest
      else
        match split_on sep rest with
        | first :: others => String c first :: others
        | [] => [String c EmptyString]
        end
  end.

(** [opencv_version()], on the text of [cv2.__version__]. *)
Definition opencv_version (cv2_version : string) : startup Z :=
  let v := default "" (head (split_on "."%char cv2_version)) in
  if bool_decide (v = "2") then Started 2
  else if bool_decide (v = "3") then Started 3
  else Failed (Exception ("opencv version can not be parsed. v=" +:+ v)).

Section Startup.

(** The codec code of a format name ([cv2.cv.FOURCC] or
    [cv2.VideoWriter_fourcc]), the value of [int(text)] ([None] when the
    text is not a number) and the parameter server ([name] to text; a
    missing parameter reads as the default the call gives, here the
    empty text) are taken as given. *)
Variable fourcc : string → startup Z.
Variable py_int : string → option Z.
Variable params : gmap string string.

(** [VideoRecorder.__init__]: [1.0 / self.fps] comes first, then the
    version of OpenCV decides which codec lookup is called. *)
Definition VideoRecorder_new (cv2_version : string)
    (output_width output_height output_fps : Z) (output_format output_path : string)
    (initial_start : bool) : startup VideoRecorder :=
  if output_fps =? 0 then Failed ZeroDivisionError
  else
    _ ← opencv_version cv2_version;
    _ ← fourcc output_format;
    Started (VideoRecorder_init output_width output_height output_fps
               output_path initial_start).

Definition get_param (name default_value : string) : string :=
  default default_value (params !! name).

Definition int_field (fields : list string) (k : nat) : startup Z :=
  match fields !! k with
  | None => Failed IndexError
  | Some text =>
      match py_int text with
      | Some n => Started n
      | None => Failed (IntValueError text)
      end
  end.

(** The body of the loop over the sources, for one description
    [topic,x,y,w,h]: the fields are read in this order, and fields after
    the fifth are not looked at.  (The topic only names the
    subscription.) *)
Definition parse_source (source_info : string) : startup VideoFrames :=
  let source_info_list := split_on ","%char source_info in
  target_x ← int_field source_info_list 1;
  target_y ← int_field source_info_list 2;
  target_w ← int_field source_info_list 3;
  target_h ← int_field source_info_list 4;
  Started (mkVideoFrames [] target_x target_y target_w target_h).

(** [for idx in range(num_videos)], from [idx] on with [n] rounds left:
    the parameters [~source1], [~source2], ... are read until one is
    missing or empty. *)
Fixpoint read_sources (n idx : nat) : startup (list VideoFrames) :=
  match n with
  | O => Started []
  | S k =>
      let source_info := get_param ("~source" +:+ pretty (idx + 1)%nat) "" in
      if bool_decide (source_info = "") then Started []
      else
        vf ← parse_source source_info;
        rest ← read_sources k (S idx);
        Started (vf :: rest)
  end.

(** The sources of the node: [num_videos] is [int] of the parameter
    [~num_videos], 1000 when it is not set. *)
Definition node_sources : startup (list VideoFrames) :=
  match py_int (get_param "~num_videos" "1000") with
  | None => Failed (IntValueError (get_param "~num_videos" "1000"))
  | Some num_videos => read_sources (Z.to_nat num_videos) 0
  end.

End Startup.

(** The canvases a writer has received, none when there is no writer. *)
Definition written (self : VideoRecorder) : list ndarray :=
  match video_writer self with
  | Some vw => vw_written vw
  | None => []
  end.

(** Sources whose regions fit a canvas of [height] by [width] and whose
    stored frames are pictures. *)
Definition valid_sources (ws : list VideoFrames) (height width : Z) : Prop :=
  Forall (λ frame_w,
            region_fits frame_w height width ∧
            Forall (λ f, picture f.2) (frames frame_w)) ws.

(** The main thread is at the head of the loop of [start_record] with
    [curr_time], the recording is on and not stopped, ROS is up, the
    loop is not ahead of the clock, and the configuration is sound: a
    positive interval, a canvas of non-negative size, sources that fit
    it, and a writer, if any, that is open. *)
Definition ticking (s : system) (curr_time : Z) : Prop :=
  main s = InRecord curr_time ∧
  record_flag (recorder s) = true ∧
  end_time (recorder s) < 0 ∧
  is_shutdown (outside s) = false ∧
  curr_time ≤ now (outside s) ∧
  0 < interval (recorder s) ∧
  0 ≤ output_height (recorder s) ∧ 0 ≤ output_width (recorder s) ∧
  valid_sources (frame_wrappers (recorder s))
    (output_height (recorder s)) (output_width (recorder s)) ∧
  ∀ vw, video_writer (recorder s) = Some vw → vw_released vw = false.

(** A recorder in the middle of a recording, for examples: two sources
    side by side on a canvas of 2 by 1, an interval of four
    microseconds, a file and a publisher. *)
Definition demo_recorder : VideoRecorder :=
  mkVideoRecorder
    [mkVideoFrames [(0, px "a")] 0 0 1 1; mkVideoFrames [] 1 0 1 1]
    0 (-1) true 250000 4 2 1 true "/tmp/rec_[timestamp].avi"
    (Some "/tmp/rec_0.avi") (Some (mkVideoWriter "/tmp/rec_0.avi" [] false)).

Definition demo_world : world := mkWorld 0 false [] [] [].

(** How often a character occurs in a text. *)
Fixpoint count_char (c : Ascii.ascii) (s : string) : nat :=
  match s with
  | EmptyString => 0%nat
  | String a rest => ((if bool_decide (a = c) then 1 else 0) + count_char c rest)%nat
  end.

(** A stand-in for [int] to run the start-up with: texts of decimal
    digits only. *)
Fixpoint digits_value (acc : Z) (s : string) : option Z :=
  match s with
  | EmptyString => Some acc
  | String a rest =>
      let d := Z.of_nat (nat_of_ascii a) - 48 in
      if (0 <=? d) && (d <=? 9) then digits_value (acc * 10 + d) rest else None
  end.

Definition digits_int (s : string) : option Z :=
  if bool_decide (s = "") then None else digits_value 0 s.

(** The events of an undisturbed recording: the main thread runs a tick
    (with the time its work takes and enough rounds for the waiting
    loop), or a picture is delivered to a source. *)
Definition is_tick (e : event) : bool :=
  match e with
  | MainStep _ _ => true
  | _ => false
  end.

Definition ticks (es : list event) : nat := length (List.filter is_tick es).

Definition steady_event (itv : Z) (e : event) : Prop :=
  match e with
  | MainStep work fuel => 0 ≤ work ∧ (Z.to_nat itv ≤ fuel)%nat
  | Deliver _ cv_image => picture cv_image
  | _ => False
  end.

(** * Properties *)

(** ** The frame buffer *)

Section Buffer.

Implicit Types (self : VideoFrames) (l fs : list (Z * ndarray)) (t : Z).

Lemma get_latest_unfold self t b :
  get_latest self t b =
  match last (filter (λ x, x.1 ≤ t) (frames self)) with
  | None => (None, self)
  | Some f =>
      (Some f.2,
       if b
       then set_frames self
              (drop (length (filter (λ x, (x.1 ≤ t)%Z) (frames self)) - 1)%nat
                 (frames self))
       else self)
  end.
Proof. reflexivity. Qed.

(** A buffer in arrival order splits at a query time. *)
Lemma nondecreasing_split l t :
  nondecreasing l →
  ∃ l1 l2, l = l1 ++ l2 ∧ Forall (λ x, x.1 ≤ t) l1 ∧ Forall (λ x, t < x.1) l2.
Proof.
  induction 1 as [|x l Hl IH Hx].
  - exists [], []. by repeat split.
  - destruct (decide (x.1 ≤ t)) as [Hle|Hgt].
    + destruct IH as (l1 & l2 & -> & H1 & H2).
      exists (x :: l1), l2. repeat split; [by constructor | done].
    + exists [], (x :: l). repeat split; [constructor|].
      constructor; [lia|].
      eapply Forall_impl; [exact Hx|]. simpl. intros y Hy. lia.
Qed.

Lemma filter_all l t :
  Forall (λ x, x.1 ≤ t) l → filter (λ x, x.1 ≤ t) l = l.
Proof.
  induction 1 as [|x l Hx _ IH]; [done|].
  rewrite filter_cons_True by done. by rewrite IH.
Qed.

Lemma filter_none l t :
  Forall (λ x, t < x.1) l → filter (λ x, x.1 ≤ t) l = [].
Proof.
  induction 1 as [|x l Hx _ IH]; [done|].
  rewrite filter_cons_False by lia. done.
Qed.

Lemma filter_none_inv l t :
  filter (λ x, x.1 ≤ t) l = [] → Forall (λ x, t < x.1) l.
Proof.
  induction l as [|x l IH]; [constructor|].
  destruct (decide (x.1 ≤ t)) as [Hle|Hgt].
  - rewrite filter_cons_True by done. discriminate.
  - rewrite filter_cons_False by done. intros H.
    constructor; [lia | by apply IH].
Qed.

(** What a query does on a buffer in arrival order. *)
Lemma get_latest_split self t b l1 f l2 :
  frames self = l1 ++ f :: l2 →
  Forall (λ x, x.1 ≤ t) l1 → f.1 ≤ t → Forall (λ x, t < x.1) l2 →
  get_latest self t b =
    (Some f.2, if b then set_frames self (f :: l2) else self).
Proof.
  intros Hfr H1 Hf H2. rewrite get_latest_unfold, Hfr.
  rewrite filter_app, filter_cons_True by done.
  rewrite (filter_all l1), (filter_none l2) by done.
  rewrite last_snoc. simpl. do 3 f_equal.
  rewrite length_app. simpl.
  replace (length l1 + 1 - 1)%nat with (length l1) by lia.
  by rewrite drop_app_length.
Qed.

Lemma get_latest_empty self t b :
  Forall (λ x, t < x.1) (frames self) → get_latest self t b = (None, self).
Proof.
  intros H. rewrite get_latest_unfold. by rewrite (filter_none _ _ H).
Qed.

Lemma frames_set_frames self fs : frames (set_frames self fs) = fs.
Proof. reflexivity. Qed.

End Buffer.

Section BufferClaims.

Implicit Types (self : VideoFrames) (l fs : list (Z * ndarray)) (t : Z).

(** A query on a buffer in arrival order: either nothing is old enough
    and nothing changes, or the buffer is [l1 ++ (ts, img) :: l2] with
    [l1] no later than [ts], [ts] no later than [t], and [l2] later
    than [t]; the answer is [img] and trimming keeps [(ts, img) :: l2]. *)
Lemma get_latest_sorted self t b :
  nondecreasing (frames self) →
  (get_latest self t b = (None, self) ∧ Forall (λ x, t < x.1) (frames self)) ∨
  (∃ ts img l1 l2,
      frames self = l1 ++ (ts, img) :: l2 ∧
      Forall (λ x, x.1 ≤ ts) l1 ∧ ts ≤ t ∧ Forall (λ x, t < x.1) l2 ∧
      get_latest self t b =
        (Some img, if b then set_frames self ((ts, img) :: l2) else self)).
Proof.
  intros Hs.
  destruct (nondecreasing_split _ t Hs) as (l1 & l2 & Hfr & H1 & H2).
  destruct l1 as [|x l1' _] using rev_ind.
  - left. simpl in Hfr. rewrite <- Hfr in H2.
    split; [by apply get_latest_empty | done].
  - right. destruct x as [ts img].
    rewrite <- app_assoc in Hfr. simpl in Hfr.
    apply Forall_app in H1 as [H1 Hx]. rewrite Forall_singleton in Hx. simpl in Hx.
    exists ts, img, l1', l2. split_and!; try done.
    + rewrite Hfr in Hs. apply StronglySorted_app in Hs as (Hc & _ & _).
      apply Forall_forall. intros y Hy. apply (Hc y (ts, img)); [done|].
      apply list_elem_of_here.
    + by rewrite (get_latest_split self t b l1' (ts, img) l2).
Qed.

Lemma reachable_nondecreasing self : reachable self → nondecreasing (frames self).
Proof.
  induction 1 as [x y w h|self now img _ IH Hle|self t b _ IH].
  - constructor.
  - simpl. apply StronglySorted_app. repeat split; [|done|].
    + intros x1 x2 H1 H2. apply list_elem_of_singleton in H2 as ->.
      simpl. by apply (proj1 (Forall_forall _ _) Hle).
    + repeat constructor.
  - destruct (get_latest_sorted self t b IH) as [[-> _]|(ts & img & l1 & l2 & Hfr & _ & _ & _ & ->)];
      [done|].
    destruct b; [|done]. simpl.
    rewrite Hfr in IH. by apply StronglySorted_app_1_r in IH.
Qed.

Lemma frames_after_appends self (calls : list (Z * ndarray)) :
  frames (foldl (λ s c, callback_image s c.1 c.2) self calls) = frames self ++ calls.
Proof.
  revert self. induction calls as [|c calls IH]; intros self; simpl.
  - by rewrite app_nil_r.
  - rewrite IH. destruct c as [now img]. simpl. by rewrite <- app_assoc.
Qed.

(** C1.  After any sequence of Append calls ([callback_image]) whose
    clock readings never decrease, [get_latest] at a time [t] answers
    with a stored frame whose timestamp is at most [t] and is the
    greatest such timestamp in the buffer; it answers [None] exactly
    when every stored timestamp is later than [t]. *)
Theorem get_latest_greatest_at_or_before
    (calls : list (Z * ndarray)) (x y w h t : Z) (remove_older : bool) :
  nondecreasing calls →
  let self := foldl (λ s c, callback_image s c.1 c.2) (mkVideoFrames [] x y w h) calls in
  frames self = calls ∧
  match (get_latest self t remove_older).1 with
  | Some img =>
      ∃ ts, (ts, img) ∈ frames self ∧ ts ≤ t ∧
            ∀ f, f ∈ frames self → f.1 ≤ t → f.1 ≤ ts
  | None => ∀ f, f ∈ frames self → t < f.1
  end.
Proof.
  intros Hs self.
  assert (Hfr : frames self = calls) by (unfold self; by rewrite frames_after_appends).
  split; [done|].
  rewrite <- Hfr in Hs.
  destruct (get_latest_sorted self t remove_older Hs)
    as [[-> Hall]|(ts & img & l1 & l2 & Hspl & H1 & Hts & H2 & ->)]; simpl.
  - intros f Hf. by apply (proj1 (Forall_forall _ _) Hall).
  - exists ts. rewrite Hspl. repeat split; [|done|].
    + apply elem_of_app. right. apply list_elem_of_here.
    + intros f Hf Hft. apply elem_of_app in Hf as [Hf|Hf].
      * by apply (proj1 (Forall_forall _ _) H1).
      * apply elem_of_cons in Hf as [->|Hf]; [simpl; lia|].
        apply (proj1 (Forall_forall _ _) H2) in Hf. lia.
Qed.

Lemma get_latest_greatest_witness :
  let self := foldl (λ s c, callback_image s c.1 c.2) (mkVideoFrames [] 0 0 1 1)
                [(1, px "a"); (2, px "b"); (5, px "c")] in
  frames self = [(1, px "a"); (2, px "b"); (5, px "c")] ∧
  ∃ ts, (ts, px "b") ∈ frames self ∧ ts ≤ 3 ∧
        ∀ f, f ∈ frames self → f.1 ≤ 3 → f.1 ≤ ts.
Proof.
  apply (get_latest_greatest_at_or_before
           [(1, px "a"); (2, px "b"); (5, px "c")] 0 0 1 1 3 true).
  repeat constructor; simpl; lia.
Defined.

(** C9.  When no stored frame has a timestamp at or before [t],
    [get_latest] answers [None] and the buffer object is unchanged,
    whatever [remove_older] is; [get_latest] is a total function, so
    there is no input on which it raises. *)
Theorem get_latest_none_unchanged self t (remove_older : bool) :
  (∀ f, f ∈ frames self → t < f.1) →
  get_latest self t remove_older = (None, self).
Proof.
  intros H. apply get_latest_empty. by apply Forall_forall.
Qed.

Lemma get_latest_none_unchanged_witness :
  get_latest (mkVideoFrames [(4, px "a"); (9, px "b")] 0 0 1 1) 3 true
  = (None, mkVideoFrames [(4, px "a"); (9, px "b")] 0 0 1 1).
Proof.
  apply get_latest_none_unchanged. simpl. intros f Hf.
  apply elem_of_cons in Hf as [->|Hf]; [simpl; lia|].
  apply list_elem_of_singleton in Hf as ->. simpl; lia.
Defined.

(** C6.  On a buffer that a source can produce, a trimming query that
    answers frame [img] leaves [(ts, img) :: rest] with [ts] at most
    the query time: every retained timestamp is at least [ts], and
    the frames behind the head are all later than the query time, so
    the head is the only retained frame that has been served. *)
Theorem trim_retains_only_served_head self t img self' :
  reachable self →
  get_latest self t true = (Some img, self') →
  ∃ ts rest,
    frames self' = (ts, img) :: rest ∧ ts ≤ t ∧
    Forall (λ f, ts ≤ f.1) (frames self') ∧
    Forall (λ f, t < f.1) rest.
Proof.
  intros Hr Hq. apply reachable_nondecreasing in Hr.
  destruct (get_latest_sorted self t true Hr)
    as [[Hn _]|(ts & img' & l1 & l2 & Hspl & H1 & Hts & H2 & Hs)].
  - congruence.
  - rewrite Hs in Hq. injection Hq as -> <-.
    exists ts, l2. simpl. repeat split; [done| |done].
    constructor; [simpl; lia|].
    eapply Forall_impl; [exact H2|]. simpl. intros; lia.
Qed.

Lemma trim_retains_only_served_head_witness :
  ∃ ts rest,
    frames (mkVideoFrames [(2, px "b"); (5, px "c")] 0 0 1 1) = (ts, px "b") :: rest ∧
    ts ≤ 3 ∧
    Forall (λ f, ts ≤ f.1) (frames (mkVideoFrames [(2, px "b"); (5, px "c")] 0 0 1 1)) ∧
    Forall (λ f, 3 < f.1) rest.
Proof.
  apply (trim_retains_only_served_head
           (callback_image (callback_image (callback_image
              (mkVideoFrames [] 0 0 1 1) 1 (px "a")) 2 (px "b")) 5 (px "c"))
           3 (px "b")).
  - repeat (apply reachable_append; [|repeat constructor; simpl; lia]).
    apply reachable_new.
  - reflexivity.
Defined.

End BufferClaims.

Section Retention.

Implicit Types (self : VideoFrames) (l fs : list (Z * ndarray)) (t : Z).

(** Trimming drops at most all but one of the frames that are old
    enough, so the last of them is still the last one afterwards; this
    holds for any buffer, in arrival order or not. *)
Lemma last_filter_drop l t :
  filter (λ x, x.1 ≤ t) l ≠ [] →
  last (filter (λ x, x.1 ≤ t) (drop (length (filter (λ x, (x.1 ≤ t)%Z) l) - 1)%nat l))
  = last (filter (λ x, x.1 ≤ t) l).
Proof.
  intros Hne.
  set (m := (length (filter (λ x, (x.1 ≤ t)%Z) l) - 1)%nat).
  rewrite <- (take_drop m l) at 2.
  rewrite filter_app, last_app.
  destruct (last (filter (λ x, x.1 ≤ t) (drop m l))) as [f|] eqn:Hl; [done|].
  exfalso. apply last_None in Hl.
  assert (Hlen : length (filter (λ x, (x.1 ≤ t)%Z) l)
                 = length (filter (λ x, (x.1 ≤ t)%Z) (take m l))).
  { rewrite <- (take_drop m l) at 1. rewrite filter_app, Hl. by rewrite app_nil_r. }
  pose proof (length_filter (λ x, (x.1 ≤ t)%Z) (take m l)) as H1.
  pose proof (length_take l m) as H2.
  destruct (filter (λ x, (x.1 ≤ t)%Z) l) eqn:E; [done|].
  simpl in *. lia.
Qed.

Lemma filter_no_frame_between l t t' :
  t ≤ t' →
  (∀ f, f ∈ l → f.1 ≤ t ∨ t' < f.1) →
  filter (λ x, x.1 ≤ t') l = filter (λ x, x.1 ≤ t) l.
Proof.
  intros Htt. induction l as [|x l IH]; intros Hgap; [done|].
  assert (Hl : ∀ f, f ∈ l → f.1 ≤ t ∨ t' < f.1).
  { intros f Hf. apply Hgap. by apply elem_of_cons; right. }
  destruct (Hgap x) as [Hx|Hx]; [apply list_elem_of_here| |].
  - rewrite !filter_cons_True by lia. by rewrite IH.
  - rewrite !filter_cons_False by lia. by apply IH.
Qed.

(** A later query on the trimmed buffer, with no frame stamped between
    the two query times. *)
Lemma requery_without_frame_between self t t' F self' (remove_older : bool) :
  get_latest self t true = (Some F, self') →
  t ≤ t' →
  (∀ f, f ∈ frames self' → f.1 ≤ t ∨ t' < f.1) →
  (get_latest self' t' remove_older).1 = Some F.
Proof.
  intros Hq Htt Hgap. rewrite get_latest_unfold in Hq.
  destruct (last (filter (λ x, x.1 ≤ t) (frames self))) as [f|] eqn:Hl; [|done].
  injection Hq as <- <-. simpl in Hgap.
  rewrite get_latest_unfold. simpl.
  assert (Hsame :
    filter (λ x, x.1 ≤ t')
      (drop (length (filter (λ x, (x.1 ≤ t)%Z) (frames self)) - 1)%nat (frames self))
    = filter (λ x, x.1 ≤ t)
      (drop (length (filter (λ x, (x.1 ≤ t)%Z) (frames self)) - 1)%nat (frames self))).
  { by apply filter_no_frame_between. }
  rewrite Hsame, last_filter_drop, Hl; [done|].
  intros E. by rewrite E in Hl.
Qed.

(** The frame a trimming query answers is still stored afterwards, with
    a timestamp at most the query time. *)
Lemma served_frame_retained self t F self' :
  get_latest self t true = (Some F, self') →
  ∃ ts, (ts, F) ∈ frames self' ∧ ts ≤ t.
Proof.
  intros Hq. rewrite get_latest_unfold in Hq.
  destruct (last (filter (λ x, x.1 ≤ t) (frames self))) as [f|] eqn:Hl; [|done].
  injection Hq as <- <-. simpl.
  assert (Hne : filter (λ x, x.1 ≤ t) (frames self) ≠ []).
  { intros E. by rewrite E in Hl. }
  pose proof (last_filter_drop (frames self) t Hne) as Hkeep.
  rewrite Hl in Hkeep. apply last_Some_elem_of in Hkeep.
  apply list_elem_of_filter in Hkeep as [Hft Hin].
  exists f.1. split; [|done]. by destruct f.
Qed.

(** C2, as amended.  From any buffer state, a trimming query at [t]
    that answers [F] keeps [F] in the buffer, with its timestamp at
    most [t], and as the new head of the buffer when the stored
    timestamps were in non-decreasing order; and a later query at any
    [t'] with [t ≤ t'] on the trimmed buffer (nothing appended in
    between) answers [F] again provided no retained frame has a
    timestamp later than [t] and at most [t']. *)
Theorem requery_returns_same_frame self t F self' :
  get_latest self t true = (Some F, self') →
  (∃ ts, (ts, F) ∈ frames self' ∧ ts ≤ t) ∧
  (nondecreasing (frames self) →
   ∃ ts rest, frames self' = (ts, F) :: rest ∧ ts ≤ t) ∧
  (∀ t' (remove_older : bool),
     t ≤ t' →
     (∀ f, f ∈ frames self' → f.1 ≤ t ∨ t' < f.1) →
     (get_latest self' t' remove_older).1 = Some F).
Proof.
  intros Hq. split_and!.
  - by eapply served_frame_retained.
  - intros Hs.
    destruct (get_latest_sorted self t true Hs)
      as [[Hn _]|(ts & img & l1 & l2 & Hspl & H1 & Hts & H2 & Heq)]; [congruence|].
    rewrite Heq in Hq. injection Hq as -> <-. by exists ts, l2.
  - intros t' remove_older Htt Hgap.
    by eapply requery_without_frame_between.
Qed.

Lemma requery_returns_same_frame_witness :
  (∃ ts, (ts, px "b") ∈ frames (mkVideoFrames [(2, px "b"); (5, px "c")] 0 0 1 1)
         ∧ ts ≤ 3) ∧
  (get_latest (mkVideoFrames [(2, px "b"); (5, px "c")] 0 0 1 1) 4 true).1
  = Some (px "b").
Proof.
  destruct (requery_returns_same_frame
              (mkVideoFrames [(1, px "a"); (2, px "b"); (5, px "c")] 0 0 1 1) 3
              (px "b") (mkVideoFrames [(2, px "b"); (5, px "c")] 0 0 1 1) eq_refl)
    as (Hkept & _ & Hagain).
  split; [exact Hkept|].
  apply (Hagain 4 true).
  - lia.
  - simpl. intros f Hf.
    apply elem_of_cons in Hf as [->|Hf]; [left; simpl; lia|].
    apply list_elem_of_singleton in Hf as ->. right; simpl; lia.
Defined.

(** C2 as stated fails: the buffer holds frames stamped 1, 2 and 5; the
    trimming query at 3 answers the frame stamped 2, and the later
    query at 6, with nothing appended in between, answers the frame
    stamped 5 instead. *)
Lemma requery_later_counterexample :
  let self := mkVideoFrames [(1, px "a"); (2, px "b"); (5, px "c")] 0 0 1 1 in
  let self' := mkVideoFrames [(2, px "b"); (5, px "c")] 0 0 1 1 in
  reachable self ∧
  get_latest self 3 true = (Some (px "b"), self') ∧
  3 ≤ 6 ∧
  (get_latest self' 6 true).1 = Some (px "c") ∧
  (get_latest self' 6 true).1 ≠ Some (px "b").
Proof.
  split_and!; try done.
  apply (reachable_append
           (callback_image (callback_image (mkVideoFrames [] 0 0 1 1) 1 (px "a")) 2 (px "b"))
           5 (px "c")).
  - repeat (apply reachable_append; [|repeat constructor; simpl; lia]).
    apply reachable_new.
  - repeat constructor; simpl; lia.
Qed.

End Retention.

(** ** Arrays *)

Section Arrays.

Implicit Types (a canvas value : ndarray) (i j : nat).

Lemma np_zeros_spec h w :
  0 ≤ h → 0 ≤ w →
  ∃ canvas, np_zeros h w = Ok canvas ∧ nd_wf canvas ∧
            nd_rows canvas = Z.to_nat h ∧ nd_cols canvas = Z.to_nat w ∧
            ∀ i j, (i < Z.to_nat h)%nat → (j < Z.to_nat w)%nat →
                   nd_get canvas i j = Some black.
Proof.
  intros Hh Hw. unfold np_zeros.
  destruct (h <? 0) eqn:E1; [lia|]. destruct (w <? 0) eqn:E2; [lia|]. simpl.
  eexists. split; [reflexivity|]. split_and!; simpl; try done.
  - split; simpl; [apply length_replicate|].
    apply Forall_replicate, length_replicate.
  - intros i j Hi Hj. unfold nd_get. simpl.
    rewrite lookup_replicate_2 by done. simpl.
    by rewrite lookup_replicate_2.
Qed.

Lemma np_zeros_inv h w canvas :
  np_zeros h w = Ok canvas → 0 ≤ h ∧ 0 ≤ w.
Proof.
  unfold np_zeros.
  destruct (h <? 0) eqn:E1; [done|]. destruct (w <? 0) eqn:E2; [done|]. lia.
Qed.

Lemma nd_get_Some a i j :
  nd_wf a → (i < nd_rows a)%nat → (j < nd_cols a)%nat → is_Some (nd_get a i j).
Proof.
  intros [Hr Hc] Hi Hj. unfold nd_get.
  destruct (nd_data a !! i) as [row|] eqn:E.
  - simpl. apply lookup_lt_is_Some.
    rewrite Forall_forall in Hc. rewrite (Hc row); [done|].
    by eapply list_elem_of_lookup_2.
  - apply lookup_ge_None in E. lia.
Qed.

(** What the slice assignment does to each pixel of the target. *)
Lemma setitem_slices_get canvas y0 y1 x0 x1 value canvas' i j :
  setitem_slices canvas y0 y1 x0 x1 value = Ok canvas' →
  nd_get canvas' i j =
    p ← nd_get canvas i j;
    Some (if within (slice_indices y0 y1 (Z.of_nat (nd_rows canvas))).1
                    (slice_indices y0 y1 (Z.of_nat (nd_rows canvas))).2 i
             && within (slice_indices x0 x1 (Z.of_nat (nd_cols canvas))).1
                       (slice_indices x0 x1 (Z.of_nat (nd_cols canvas))).2 j
          then default p
                 (nd_get value
                    (broadcast_index (nd_rows value)
                       (i - (slice_indices y0 y1 (Z.of_nat (nd_rows canvas))).1))
                    (broadcast_index (nd_cols value)
                       (j - (slice_indices x0 x1 (Z.of_nat (nd_cols canvas))).1)))
          else p).
Proof.
  unfold setitem_slices.
  destruct (slice_indices y0 y1 _) as [r0 nr].
  destruct (slice_indices x0 x1 _) as [c0 nc].
  destruct (broadcast_ok _ nr && broadcast_ok _ nc); [|done].
  intros [= <-]. unfold nd_get. simpl.
  rewrite list_lookup_imap.
  destruct (nd_data canvas !! i) as [row|]; simpl; [|done].
  rewrite list_lookup_imap.
  by destruct (row !! j).
Qed.

Lemma setitem_slices_shape canvas y0 y1 x0 x1 value canvas' :
  setitem_slices canvas y0 y1 x0 x1 value = Ok canvas' →
  nd_rows canvas' = nd_rows canvas ∧ nd_cols canvas' = nd_cols canvas ∧
  (nd_wf canvas → nd_wf canvas').
Proof.
  unfold setitem_slices.
  destruct (slice_indices y0 y1 _) as [r0 nr].
  destruct (slice_indices x0 x1 _) as [c0 nc].
  destruct (broadcast_ok _ nr && broadcast_ok _ nc); [|done].
  intros [= <-]. simpl. split_and!; try done.
  intros [Hr Hc]. split; simpl.
  - by rewrite length_imap.
  - apply Forall_forall. intros row Hrow.
    apply list_elem_of_lookup in Hrow as [i Hi].
    rewrite list_lookup_imap in Hi.
    destruct (nd_data canvas !! i) as [row0|] eqn:E; [|done].
    simpl in Hi. injection Hi as <-. rewrite length_imap.
    rewrite Forall_forall in Hc. apply Hc. by eapply list_elem_of_lookup_2.
Qed.

(** A rectangle with non-negative offsets inside the axis is addressed
    as written: no clipping and no counting from the end. *)
Lemma slice_indices_inside start count len :
  0 ≤ start → 0 ≤ count → start + count ≤ len →
  slice_indices start (start + count) len = (Z.to_nat start, Z.to_nat count).
Proof.
  intros H1 H2 H3. unfold slice_indices, adjust_index.
  destruct (start <? 0) eqn:E1; [lia|].
  destruct (start + count <? 0) eqn:E2; [lia|].
  f_equal; f_equal; lia.
Qed.

End Arrays.

(** ** The compositor *)

Section CompositorFacts.

Variable cv2_resize : ndarray → Z → Z → result ndarray.

Implicit Types (frame_w : VideoFrames) (canvas : ndarray) (t : Z) (i j : nat).

Lemma get_latest_stored frame_w t b f :
  (get_latest frame_w t b).1 = Some f → ∃ ts, (ts, f) ∈ frames frame_w.
Proof.
  rewrite get_latest_unfold.
  destruct (last (filter (λ x, x.1 ≤ t) (frames frame_w))) as [[ts g]|] eqn:Hl; [|done].
  simpl. intros [= <-]. exists ts.
  apply last_Some_elem_of in Hl. by apply list_elem_of_filter in Hl as [_ Hl].
Qed.

(** A source without a frame for the tick is passed over: no error,
    the same canvas, the same buffer. *)
Lemma draw_source_no_frame frame_w t canvas :
  (get_latest frame_w t true).1 = None →
  draw_source cv2_resize frame_w t canvas = Ok (canvas, frame_w).
Proof.
  intros Hn. unfold draw_source. rewrite get_latest_unfold in *.
  by destruct (last (filter (λ x, x.1 ≤ t) (frames frame_w))).
Qed.

Lemma draw_source_inv frame_w t canvas canvas' frame_w' :
  draw_source cv2_resize frame_w t canvas = Ok (canvas', frame_w') →
  nd_rows canvas' = nd_rows canvas ∧ nd_cols canvas' = nd_cols canvas ∧
  (nd_wf canvas → nd_wf canvas') ∧
  ∀ i j, draws_on frame_w t (nd_rows canvas) (nd_cols canvas) i j = false →
         nd_get canvas' i j = nd_get canvas i j.
Proof.
  unfold draw_source, draws_on.
  destruct (get_latest frame_w t true) as [[f|] fw1]; simpl.
  - destruct (cv2_resize f _ _) as [resized| |]; simpl; [|done..].
    destruct (setitem_slices _ _ _ _ _ _) as [c1| |] eqn:Hset; simpl; [|done..].
    intros [= <- <-].
    destruct (setitem_slices_shape _ _ _ _ _ _ _ Hset) as (Hr & Hc & Hwf).
    split_and!; try done.
    intros i j Hout. rewrite (setitem_slices_get _ _ _ _ _ _ _ i j Hset).
    unfold in_target in Hout.
    destruct (slice_indices (target_y frame_w) _ _) as [r0 nr].
    destruct (slice_indices (target_x frame_w) _ _) as [c0 nc].
    simpl. rewrite Hout. by destruct (nd_get canvas i j).
  - by intros [= <- <-].
Qed.

Lemma draw_sources_inv ws t canvas canvas' ws' :
  draw_sources cv2_resize ws t canvas = Ok (canvas', ws') →
  nd_rows canvas' = nd_rows canvas ∧ nd_cols canvas' = nd_cols canvas ∧
  (nd_wf canvas → nd_wf canvas') ∧
  ∀ i j,
    (∀ frame_w, frame_w ∈ ws →
                draws_on frame_w t (nd_rows canvas) (nd_cols canvas) i j = false) →
    nd_get canvas' i j = nd_get canvas i j.
Proof.
  revert canvas canvas' ws'.
  induction ws as [|frame_w ws IH]; intros canvas canvas' ws'; simpl.
  - by intros [= <- <-].
  - destruct (draw_source cv2_resize frame_w t canvas) as [[c1 fw1]| |] eqn:H1;
      simpl; [|done..].
    destruct (draw_sources cv2_resize ws t c1) as [[c2 ws2]| |] eqn:H2;
      simpl; [|done..].
    intros [= <- <-].
    destruct (draw_source_inv _ _ _ _ _ H1) as (Hr1 & Hc1 & Hwf1 & Hout1).
    destruct (IH _ _ _ H2) as (Hr2 & Hc2 & Hwf2 & Hout2).
    split_and!; [congruence|congruence|tauto|].
    intros i j Hno. rewrite Hout2, Hout1; [done| |].
    + apply Hno, list_elem_of_here.
    + intros fw Hfw. rewrite Hr1, Hc1. apply Hno. by apply elem_of_cons; right.
Qed.

(** Every pixel of a tick's canvas that no source draws on is black. *)
Lemma compose_inv ws height width t canvas ws' :
  compose cv2_resize ws height width t = Ok (canvas, ws') →
  0 ≤ height ∧ 0 ≤ width ∧ nd_wf canvas ∧
  nd_rows canvas = Z.to_nat height ∧ nd_cols canvas = Z.to_nat width ∧
  ∀ i j,
    (i < Z.to_nat height)%nat → (j < Z.to_nat width)%nat →
    (∀ frame_w, frame_w ∈ ws →
                draws_on frame_w t (Z.to_nat height) (Z.to_nat width) i j = false) →
    nd_get canvas i j = Some black.
Proof.
  unfold compose.
  destruct (np_zeros height width) as [c0| |] eqn:Hz; simpl; [|done..].
  intros Hd.
  destruct (np_zeros_inv _ _ _ Hz) as [Hh Hw].
  destruct (np_zeros_spec height width Hh Hw) as (c0' & Hz' & Hwf & Hr & Hc & Hblack).
  rewrite Hz in Hz'. injection Hz' as <-.
  destruct (draw_sources_inv _ _ _ _ _ Hd) as (Hr1 & Hc1 & Hwf1 & Hout).
  split_and!; [done|done|tauto|congruence|congruence|].
  intros i j Hi Hj Hno. rewrite Hout; [by apply Hblack|].
  intros fw Hfw. rewrite Hr, Hc. by apply Hno.
Qed.

End CompositorFacts.

Section CompositorClaims.

Variable cv2_resize : ndarray → Z → Z → result ndarray.

(** The contract of [cv2.resize(src, (w, h))]: what it returns has [h]
    rows and [w] columns, and it returns for a picture and a size of
    positive width and height. *)
Hypothesis cv2_resize_shape : ∀ src w h resized,
  cv2_resize src w h = Ok resized →
  nd_wf resized ∧ Z.of_nat (nd_rows resized) = h ∧ Z.of_nat (nd_cols resized) = w.
Hypothesis cv2_resize_returns : ∀ src w h,
  picture src → 0 < w → 0 < h → ∃ resized, cv2_resize src w h = Ok resized.

Implicit Types (frame_w : VideoFrames) (canvas : ndarray) (t : Z) (i j : nat).

Lemma broadcast_index_same d k : (k < d)%nat → broadcast_index d k = k.
Proof.
  intros Hk. unfold broadcast_index.
  destruct (d =? 1)%nat eqn:E; [|done]. apply Nat.eqb_eq in E. lia.
Qed.

(** Assigning a value of [h] rows and [w] columns to the rectangle at
    non-negative [(y, x)] of a canvas that contains it. *)
Lemma setitem_slices_fits canvas x y w h value :
  nd_wf canvas → nd_wf value →
  0 ≤ x → 0 ≤ y → 0 < w → 0 < h →
  x + w ≤ Z.of_nat (nd_cols canvas) → y + h ≤ Z.of_nat (nd_rows canvas) →
  Z.of_nat (nd_rows value) = h → Z.of_nat (nd_cols value) = w →
  slice_indices y (y + h) (Z.of_nat (nd_rows canvas)) = (Z.to_nat y, nd_rows value) ∧
  slice_indices x (x + w) (Z.of_nat (nd_cols canvas)) = (Z.to_nat x, nd_cols value) ∧
  ∃ canvas',
    setitem_slices canvas y (y + h) x (x + w) value = Ok canvas' ∧
    nd_wf canvas' ∧
    nd_rows canvas' = nd_rows canvas ∧ nd_cols canvas' = nd_cols canvas ∧
    ∀ i j, (i < nd_rows value)%nat → (j < nd_cols value)%nat →
           nd_get canvas' (Z.to_nat y + i) (Z.to_nat x + j) = nd_get value i j.
Proof.
  intros Hwf Hvwf Hx Hy Hw Hh Hxw Hyh Hrr Hrc.
  assert (Hsr : slice_indices y (y + h) (Z.of_nat (nd_rows canvas))
                = (Z.to_nat y, nd_rows value)).
  { rewrite slice_indices_inside by lia. f_equal. lia. }
  assert (Hsc : slice_indices x (x + w) (Z.of_nat (nd_cols canvas))
                = (Z.to_nat x, nd_cols value)).
  { rewrite slice_indices_inside by lia. f_equal. lia. }
  split; [done|]. split; [done|].
  destruct (setitem_slices canvas y (y + h) x (x + w) value) as [c1|e|] eqn:Hset.
  - exists c1. split; [done|].
    destruct (setitem_slices_shape _ _ _ _ _ _ _ Hset) as (Hr1 & Hc1 & Hwf1).
    split_and!; try done; [by apply Hwf1|].
    intros i j Hi Hj.
    rewrite (setitem_slices_get _ _ _ _ _ _ _ _ _ Hset), Hsr, Hsc. simpl.
    destruct (nd_get_Some canvas (Z.to_nat y + i) (Z.to_nat x + j) Hwf)
      as [p Hp]; [lia..|].
    rewrite Hp. simpl.
    destruct (nd_get_Some value i j Hvwf Hi Hj) as [q Hq].
    unfold within.
    replace (Z.to_nat y + i - Z.to_nat y)%nat with i by lia.
    replace (Z.to_nat x + j - Z.to_nat x)%nat with j by lia.
    rewrite !broadcast_index_same, Hq by done. simpl.
    destruct (Nat.leb_spec (Z.to_nat y) (Z.to_nat y + i)); [|lia].
    destruct (Nat.ltb_spec (Z.to_nat y + i) (Z.to_nat y + nd_rows value)); [|lia].
    destruct (Nat.leb_spec (Z.to_nat x) (Z.to_nat x + j)); [|lia].
    destruct (Nat.ltb_spec (Z.to_nat x + j) (Z.to_nat x + nd_cols value)); [|lia].
    done.
  - exfalso. unfold setitem_slices in Hset. rewrite Hsr, Hsc in Hset.
    unfold broadcast_ok in Hset. rewrite !Nat.eqb_refl in Hset. done.
  - exfalso. unfold setitem_slices in Hset. rewrite Hsr, Hsc in Hset.
    unfold broadcast_ok in Hset. rewrite !Nat.eqb_refl in Hset. done.
Qed.

Lemma draw_source_returns frame_w t canvas :
  nd_wf canvas →
  region_fits frame_w (Z.of_nat (nd_rows canvas)) (Z.of_nat (nd_cols canvas)) →
  Forall (λ f, picture f.2) (frames frame_w) →
  ∃ canvas', draw_source cv2_resize frame_w t canvas
             = Ok (canvas', (get_latest frame_w t true).2).
Proof using cv2_resize_shape cv2_resize_returns.
  intros Hwf Hfit Hpics.
  destruct ((get_latest frame_w t true).1) as [f|] eqn:Hf.
  - destruct (get_latest_stored _ _ _ _ Hf) as [ts Hin].
    rewrite Forall_forall in Hpics. specialize (Hpics _ Hin). simpl in Hpics.
    destruct Hfit as (Hx & Hy & Hw & Hh & Hxw & Hyh).
    destruct (cv2_resize_returns f _ _ Hpics Hw Hh) as [resized Hres].
    destruct (cv2_resize_shape _ _ _ _ Hres) as (Hrwf & Hrr & Hrc).
    destruct (setitem_slices_fits canvas (target_x frame_w) (target_y frame_w)
                (target_w frame_w) (target_h frame_w) resized)
      as (_ & _ & c1 & Hset & _); try done.
    exists c1. unfold draw_source.
    destruct (get_latest frame_w t true) as [o fw1]. simpl in Hf. subst o.
    simpl. rewrite Hres. simpl. by rewrite Hset.
  - exists canvas. rewrite (draw_source_no_frame _ _ _ _ Hf).
    rewrite get_latest_unfold in *.
    by destruct (last (filter (λ x, x.1 ≤ t) (frames frame_w))).
Qed.

Lemma draw_sources_returns ws t canvas :
  nd_wf canvas →
  Forall (λ frame_w,
            region_fits frame_w (Z.of_nat (nd_rows canvas)) (Z.of_nat (nd_cols canvas)) ∧
            Forall (λ f, picture f.2) (frames frame_w)) ws →
  ∃ canvas' ws', draw_sources cv2_resize ws t canvas = Ok (canvas', ws').
Proof using cv2_resize_shape cv2_resize_returns.
  revert canvas. induction ws as [|frame_w ws IH]; intros canvas Hwf Hall; simpl.
  - by eexists _, _.
  - apply Forall_cons in Hall as [[Hfit Hpics] Hall].
    destruct (draw_source_returns frame_w t canvas Hwf Hfit Hpics) as [c1 H1].
    rewrite H1. simpl.
    destruct (draw_source_inv _ _ _ _ _ _ H1) as (Hr1 & Hc1 & Hwf1 & _).
    destruct (IH c1 (Hwf1 Hwf)) as (c2 & ws2 & H2).
    { by rewrite Hr1, Hc1. }
    rewrite H2. simpl. by eexists _, _.
Qed.

Lemma within_slice_bound start stop len i :
  0 ≤ len →
  within (slice_indices start stop len).1 (slice_indices start stop len).2 i = true →
  (i < Z.to_nat len)%nat.
Proof.
  intros Hlen. unfold within, slice_indices, adjust_index. simpl.
  intros H. apply andb_true_iff in H as [H1 H2].
  apply Nat.leb_le in H1. apply Nat.ltb_lt in H2.
  destruct (Z.ltb_spec start 0); destruct (Z.ltb_spec stop 0); lia.
Qed.

Lemma in_target_bound frame_w rows cols i j :
  in_target frame_w rows cols i j = true → (i < rows)%nat ∧ (j < cols)%nat.
Proof.
  unfold in_target.
  pose proof (within_slice_bound (target_y frame_w)
                (target_y frame_w + target_h frame_w) (Z.of_nat rows) i) as Hr.
  pose proof (within_slice_bound (target_x frame_w)
                (target_x frame_w + target_w frame_w) (Z.of_nat cols) j) as Hc.
  destruct (slice_indices (target_y frame_w) _ _) as [r0 nr].
  destruct (slice_indices (target_x frame_w) _ _) as [c0 nc].
  simpl in *. intros H. apply andb_true_iff in H as [H1 H2].
  split; [apply Hr in H1|apply Hc in H2]; lia.
Qed.

(** C10, as amended.  For a source whose region has non-negative
    offsets [x] and [y], positive width and height, and [x + w] and
    [y + h] within the canvas, the write of the resized frame
    succeeds: the slices address exactly rows [y .. y+h) and columns
    [x .. x+w) of the canvas, the resized image has exactly that
    shape, so the assignment is not the [ValueError] of a shape
    mismatch, and pixel [(y+i, x+j)] of the canvas becomes pixel
    [(i, j)] of the resized frame. *)
Theorem region_write_in_bounds frame_w t canvas f resized :
  nd_wf canvas →
  region_fits frame_w (Z.of_nat (nd_rows canvas)) (Z.of_nat (nd_cols canvas)) →
  (get_latest frame_w t true).1 = Some f →
  cv2_resize f (target_w frame_w) (target_h frame_w) = Ok resized →
  slice_indices (target_y frame_w) (target_y frame_w + target_h frame_w)
    (Z.of_nat (nd_rows canvas))
    = (Z.to_nat (target_y frame_w), nd_rows resized) ∧
  slice_indices (target_x frame_w) (target_x frame_w + target_w frame_w)
    (Z.of_nat (nd_cols canvas))
    = (Z.to_nat (target_x frame_w), nd_cols resized) ∧
  ∃ canvas',
    setitem_slices canvas
      (target_y frame_w) (target_y frame_w + target_h frame_w)
      (target_x frame_w) (target_x frame_w + target_w frame_w) resized
      = Ok canvas' ∧
    draw_source cv2_resize frame_w t canvas
      = Ok (canvas', (get_latest frame_w t true).2) ∧
    nd_wf canvas' ∧
    nd_rows canvas' = nd_rows canvas ∧ nd_cols canvas' = nd_cols canvas ∧
    ∀ i j, (i < nd_rows resized)%nat → (j < nd_cols resized)%nat →
           nd_get canvas' (Z.to_nat (target_y frame_w) + i)
                          (Z.to_nat (target_x frame_w) + j)
           = nd_get resized i j.
Proof using cv2_resize_shape.
  intros Hwf (Hx & Hy & Hw & Hh & Hxw & Hyh) Hf Hres.
  destruct (cv2_resize_shape _ _ _ _ Hres) as (Hrwf & Hrr & Hrc).
  destruct (setitem_slices_fits canvas (target_x frame_w) (target_y frame_w)
              (target_w frame_w) (target_h frame_w) resized)
    as (Hsr & Hsc & canvas' & Hset & Hwf' & Hr' & Hc' & Hpx); try done.
  split; [done|]. split; [done|].
  exists canvas'. split_and!; try done.
  unfold draw_source.
  destruct (get_latest frame_w t true) as [o fw1]. simpl in Hf. subst o.
  simpl. rewrite Hres. simpl. by rewrite Hset.
Qed.

(** C7.  Whatever the configuration and the frames available, a canvas
    that a tick composes is a well-formed array of exactly
    [output_height] rows and [output_width] columns of 3-channel
    pixels, and every pixel that no source with a frame draws on in
    this tick is zero, so nothing is carried over from an earlier
    tick (with no frame available at all the whole canvas is zero);
    and for a configuration whose regions fit the canvas the tick does
    compose a canvas. *)
Theorem compose_fixed_size_fresh ws height width t :
  (∀ canvas ws',
      compose cv2_resize ws height width t = Ok (canvas, ws') →
      nd_wf canvas ∧
      Z.of_nat (nd_rows canvas) = height ∧ Z.of_nat (nd_cols canvas) = width ∧
      ∀ i j,
        (i < nd_rows canvas)%nat → (j < nd_cols canvas)%nat →
        (∀ frame_w, frame_w ∈ ws →
           draws_on frame_w t (nd_rows canvas) (nd_cols canvas) i j = false) →
        nd_get canvas i j = Some black) ∧
  (0 ≤ height → 0 ≤ width →
   Forall (λ frame_w,
             region_fits frame_w height width ∧
             Forall (λ f, picture f.2) (frames frame_w)) ws →
   ∃ canvas ws', compose cv2_resize ws height width t = Ok (canvas, ws')).
Proof using cv2_resize_shape cv2_resize_returns.
  split.
  - intros canvas ws' Hc.
    destruct (compose_inv _ _ _ _ _ _ _ Hc) as (Hh & Hw & Hwf & Hr & Hcl & Hblack).
    split_and!; [done|lia|lia|].
    intros i j Hi Hj Hno. apply Hblack; [lia|lia|].
    intros fw Hfw. rewrite <- Hr, <- Hcl. by apply Hno.
  - intros Hh Hw Hall. unfold compose.
    destruct (np_zeros_spec height width Hh Hw) as (c0 & Hz & Hwf & Hr & Hc & _).
    rewrite Hz. simpl. apply draw_sources_returns; [done|].
    rewrite Hr, Hc, !Z2Nat.id by done. exact Hall.
Qed.

(** C8, as amended.  Passing over a source that has no frame for the
    tick is not an error and changes neither the canvas, inside or
    outside its rectangle, nor its buffer; in the canvas of the tick
    every pixel of its rectangle that no source with a frame draws on
    is zero. *)
Theorem no_frame_region_left_alone frame_w t :
  (get_latest frame_w t true).1 = None →
  (∀ canvas, draw_source cv2_resize frame_w t canvas = Ok (canvas, frame_w)) ∧
  (∀ ws height width canvas ws' i j,
      frame_w ∈ ws →
      compose cv2_resize ws height width t = Ok (canvas, ws') →
      in_target frame_w (nd_rows canvas) (nd_cols canvas) i j = true →
      (∀ other, other ∈ ws →
         draws_on other t (nd_rows canvas) (nd_cols canvas) i j = false) →
      nd_get canvas i j = Some black).
Proof.
  intros Hn. split.
  - intros canvas. by apply draw_source_no_frame.
  - intros ws height width canvas ws' i j Hin Hc Hrect Hno.
    destruct (compose_inv _ _ _ _ _ _ _ Hc) as (Hh & Hw & Hwf & Hr & Hcl & Hblack).
    destruct (in_target_bound _ _ _ _ _ Hrect) as [Hi Hj].
    apply Hblack; [lia|lia|].
    intros fw Hfw. rewrite <- Hr, <- Hcl. by apply Hno.
Qed.

End CompositorClaims.

(** ** The model run with the nearest-neighbour resize *)

Lemma nn_resize_shape src w h resized :
  nn_resize src w h = Ok resized →
  nd_wf resized ∧ Z.of_nat (nd_rows resized) = h ∧ Z.of_nat (nd_cols resized) = w.
Proof.
  unfold nn_resize.
  destruct ((0 <? w) && (0 <? h) && (0 <? nd_rows src)%nat && (0 <? nd_cols src)%nat)
    eqn:E; [|done].
  intros [= <-]. simpl.
  repeat (apply andb_true_iff in E as [E ?]).
  apply Z.ltb_lt in E. assert (0 < h) by by apply Z.ltb_lt.
  split_and!; [|lia|lia].
  split; simpl.
  - by rewrite length_fmap, length_seq.
  - apply Forall_fmap, Forall_forall. intros i _. simpl.
    by rewrite length_fmap, length_seq.
Qed.

Lemma nn_resize_returns src w h :
  picture src → 0 < w → 0 < h → ∃ resized, nn_resize src w h = Ok resized.
Proof.
  intros (_ & Hr & Hc) Hw Hh. unfold nn_resize.
  apply Z.ltb_lt in Hw, Hh. apply Nat.ltb_lt in Hr, Hc.
  rewrite Hw, Hh, Hr, Hc. simpl. by eexists.
Qed.

Lemma picture_px b : picture (px b).
Proof.
  unfold picture, nd_wf. simpl. split_and!; try done; try lia.
  by repeat constructor.
Qed.

(** Two sources side by side on a canvas of 4 by 2: the left one has a
    frame stamped 0, the right one has none; the tick at half a second
    shows the frame in the left half and zeros in the right half. *)
Example compose_left_frame_right_blank :
  compose nn_resize
    [mkVideoFrames [(0, px "r")] 0 0 2 2; mkVideoFrames [] 2 0 2 2]
    2 4 500000
  = Ok (NdArray 2 4
          [[("r", "r", "r"); ("r", "r", "r"); black; black];
           [("r", "r", "r"); ("r", "r", "r"); black; black]]%byte,
        [mkVideoFrames [(0, px "r")] 0 0 2 2; mkVideoFrames [] 2 0 2 2]).
Proof. reflexivity. Qed.

(** With a negative offset the slice counts from the end of the axis:
    on a canvas two columns wide, [canvas[0:1, -2:0]] is empty, and a
    value two columns wide does not fit it. *)
Remark negative_offset_slice_is_empty :
  slice_indices (-2) (-2 + 2) 2 = (0%nat, 0%nat) ∧
  setitem_slices (NdArray 1 2 [[black; black]]) 0 (0 + 1) (-2) (-2 + 2)
    (NdArray 1 2 [[black; black]])
  = Raise (ValueError "could not broadcast input array").
Proof. by split. Qed.

Example str_replace_timestamp :
  str_replace "/tmp/rec_[timestamp].avi" "[timestamp]" "20240131_120000"
  = "/tmp/rec_20240131_120000.avi".
Proof. reflexivity. Qed.

Lemma region_write_in_bounds_witness :
  ∃ canvas',
    setitem_slices (NdArray 1 2 [[black; black]]) 0 (0 + 1) 1 (1 + 1) (px "a") = Ok canvas' ∧
    nd_get canvas' (Z.to_nat 0 + 0) (Z.to_nat 1 + 0) = nd_get (px "a") 0 0.
Proof.
  destruct (region_write_in_bounds nn_resize nn_resize_shape
              (mkVideoFrames [(0, px "a")] 1 0 1 1) 0
              (NdArray 1 2 [[black; black]]) (px "a") (px "a"))
    as (_ & _ & canvas' & Hset & _ & _ & _ & _ & Hpx).
  - split; simpl; [done|]. by repeat constructor.
  - unfold region_fits. simpl. lia.
  - reflexivity.
  - reflexivity.
  - exists canvas'. split; [exact Hset|]. apply Hpx; simpl; lia.
Defined.

(** C10 as stated fails for a negative offset: a source bound to
    [x = -2], [y = 0], [w = 2], [h = 1] on a canvas of one row and two
    columns has [x + w ≤ 2], [y + h ≤ 1] and a positive size, and it
    has a frame; the frame is resized to one row and two columns, but
    [canvas[0:1, -2:0]] is empty, so the assignment raises
    [ValueError]. *)
Lemma region_write_negative_offset_counterexample :
  let frame_w := mkVideoFrames [(0, px "a")] (-2) 0 2 1 in
  let canvas := NdArray 1 2 [[black; black]] in
  nd_wf canvas ∧
  target_x frame_w + target_w frame_w ≤ Z.of_nat (nd_cols canvas) ∧
  target_y frame_w + target_h frame_w ≤ Z.of_nat (nd_rows canvas) ∧
  0 < target_w frame_w ∧ 0 < target_h frame_w ∧
  (get_latest frame_w 0 true).1 = Some (px "a") ∧
  nn_resize (px "a") (target_w frame_w) (target_h frame_w)
    = Ok (NdArray 1 2 [[("a", "a", "a"); ("a", "a", "a")]]%byte) ∧
  slice_indices (target_x frame_w) (target_x frame_w + target_w frame_w)
    (Z.of_nat (nd_cols canvas)) = (0%nat, 0%nat) ∧
  draw_source nn_resize frame_w 0 canvas
    = Raise (ValueError "could not broadcast input array").
Proof.
  split_and!; try done; simpl; try lia.
  split; simpl; [done|]. by repeat constructor.
Qed.

Lemma compose_fixed_size_fresh_witness :
  ∃ canvas ws',
    compose nn_resize
      [mkVideoFrames [(0, px "a")] 0 0 1 1; mkVideoFrames [] 1 0 1 1] 1 2 0
    = Ok (canvas, ws').
Proof.
  apply (proj2 (compose_fixed_size_fresh nn_resize nn_resize_shape nn_resize_returns
                  [mkVideoFrames [(0, px "a")] 0 0 1 1; mkVideoFrames [] 1 0 1 1]
                  1 2 0)).
  - lia.
  - lia.
  - repeat constructor; simpl; try lia; try apply picture_px.
Defined.

Lemma no_frame_region_left_alone_witness :
  draw_source nn_resize (mkVideoFrames [(7, px "a")] 1 0 1 1) 3
    (NdArray 1 2 [[("b", "b", "b")%byte; black]])
  = Ok (NdArray 1 2 [[("b", "b", "b")%byte; black]],
        mkVideoFrames [(7, px "a")] 1 0 1 1).
Proof.
  apply (proj1 (no_frame_region_left_alone nn_resize
                  (mkVideoFrames [(7, px "a")] 1 0 1 1) 3 eq_refl)).
Defined.

(** C8 as stated fails when rectangles overlap: both sources are bound
    to the one pixel of a 1 by 1 canvas, the first has a frame stamped 0
    and the second has none; in the tick at 0 the second source yields
    no frame, yet the pixel of its rectangle is the first source's grey
    and not zero. *)
Lemma no_frame_region_counterexample :
  let first := mkVideoFrames [(0, px "a")] 0 0 1 1 in
  let second := mkVideoFrames [] 0 0 1 1 in
  compose nn_resize [first; second] 1 1 0 = Ok (px "a", [first; second]) ∧
  (get_latest second 0 true).1 = None ∧
  in_target second 1 1 0 0 = true ∧
  nd_get (px "a") 0 0 = Some ("a", "a", "a")%byte ∧
  nd_get (px "a") 0 0 ≠ Some black.
Proof. by split_and!. Qed.

(** ** The tick loop *)

Section TickLoop.

Variable cv2_resize : ndarray → Z → Z → result ndarray.

Implicit Types (self : VideoRecorder) (w : world).

(** Past the deadline the waiting loop does not run its body. *)
Lemma wait_loop_overrun fuel curr_time itv w :
  curr_time + itv ≤ now w → wait_loop fuel curr_time itv w = Ok w.
Proof.
  intros H. destruct fuel; simpl;
    (destruct (Z.ltb_spec (now w) (curr_time + itv)); [lia|done]).
Qed.

(** With a positive interval the waiting loop ends: it sleeps whole
    intervals, [n] of them, until the clock has reached the deadline. *)
Lemma wait_loop_returns fuel curr_time itv w :
  0 < itv →
  (Z.to_nat (curr_time + itv - now w) ≤ fuel)%nat →
  ∃ w' n,
    wait_loop fuel curr_time itv w = Ok w' ∧
    curr_time + itv ≤ now w' ∧
    slept w' = slept w ++ replicate n itv ∧
    now w' = now w + Z.of_nat n * itv ∧
    is_shutdown w' = is_shutdown w ∧ loginfo w' = loginfo w ∧
    published w' = published w.
Proof.
  intros Hitv. revert w. induction fuel as [|fuel IH]; intros w Hfuel.
  - exists w, 0%nat. simpl.
    destruct (Z.ltb_spec (now w) (curr_time + itv)); [lia|].
    split_and!; try done; [by rewrite app_nil_r | lia].
  - simpl. destruct (Z.ltb_spec (now w) (curr_time + itv)).
    + destruct (IH (rospy_sleep itv w)) as (w' & n & Hw & Hd & Hs & Hn & Hsh & Hl & Hp).
      { simpl. lia. }
      exists w', (S n). simpl in *. split_and!; try done.
      * by rewrite Hs, <- app_assoc.
      * lia.
    + exists w, 0%nat. split_and!; try done; [by rewrite app_nil_r | lia].
Qed.

(** C5, as amended.  Every iteration of the tick loop, when composing
    succeeds, writes exactly this tick's canvas to the writer (and the
    publisher) and moves [curr_time] on by exactly one interval, with
    no tick skipped.  When the tick has overrun, the clock being at or
    past [curr_time + interval] when its processing ends, the waiting
    loop does not sleep: the only sleep of the tick is the fixed pause
    of a hundredth of a second that every tick makes before the
    waiting loop. *)
Theorem tick_overrun_skips_wait self w curr_time work fuel canvas ws :
  compose cv2_resize (frame_wrappers self) (output_height self)
    (output_width self) curr_time = Ok (canvas, ws) →
  is_shutdown w = false ∨ 0 ≤ end_time self ∨ is_Some (output_file self) →
  0 < interval self →
  (Z.to_nat (curr_time + interval self - (now w + work + second / 100)) ≤ fuel)%nat →
  ∃ self' w',
    loop_body cv2_resize self w curr_time work fuel
      = Ok (self', w', curr_time + interval self) ∧
    video_writer self' = writer_write canvas <$> video_writer self ∧
    published w' = (if pub_img self then published w ++ [canvas] else published w) ∧
    curr_time + interval self ≤ now w' ∧
    (curr_time + interval self ≤ now w + work →
     slept w' = slept w ++ [second / 100] ∧
     now w' = now w + work + second / 100).
Proof.
  intros Hc Hterm Hitv Hfuel. unfold loop_body. rewrite Hc. simpl.
  replace (is_shutdown (if pub_img self then publish canvas w else w))
    with (is_shutdown w) by by destruct (pub_img self).
  set (self1 := set_output (set_frame_wrappers self ws) (output_file self)
                  (writer_write canvas <$> video_writer self)).
  set (w1 := rospy_sleep (second / 100)
               (elapse work (if pub_img self then publish canvas w else w))).
  assert (Hnow : now w1 = now w + work + second / 100).
  { unfold w1. simpl. destruct (pub_img self); simpl; reflexivity. }
  assert (Hslept : slept w1 = slept w ++ [second / 100]).
  { unfold w1. simpl. by destruct (pub_img self). }
  assert (Hpub : published w1
                 = if pub_img self then published w ++ [canvas] else published w).
  { unfold w1. simpl. by destruct (pub_img self). }
  assert (Hstep : ∃ self2 w2,
    (if is_shutdown w && (end_time self <? 0)
     then terminate self1 w1 else Ok (self1, w1)) = Ok (self2, w2) ∧
    video_writer self2 = writer_write canvas <$> video_writer self ∧
    interval self2 = interval self ∧
    now w2 = now w1 ∧ slept w2 = slept w1 ∧ published w2 = published w1).
  { destruct (is_shutdown w && (end_time self <? 0)) eqn:E.
    - apply andb_true_iff in E as [E1 E2]. apply Z.ltb_lt in E2.
      destruct Hterm as [Hs|[He|[file Hf]]]; [congruence|lia|].
      unfold terminate. simpl. rewrite Hf. by eexists _, _.
    - by eexists _, _. }
  destruct Hstep as (self2 & w2 & -> & Hvw & Hi2 & Hn2 & Hs2 & Hp2). simpl.
  destruct (wait_loop_returns fuel curr_time (interval self) w2 Hitv)
    as (w3 & n & Hw & Hd & Hs3 & Hn3 & _ & _ & Hp3).
  { rewrite Hn2, Hnow. exact Hfuel. }
  rewrite Hi2, Hw. simpl. exists self2, w3.
  split_and!; try done.
  - by rewrite Hp3, Hp2, Hpub.
  - intros Hover.
    assert (Hpause : 0 ≤ second / 100) by (vm_compute; discriminate).
    rewrite wait_loop_overrun in Hw by lia. injection Hw as <-.
    split; [by rewrite Hs2, Hslept | by rewrite Hn2, Hnow].
Qed.


End TickLoop.

Lemma tick_overrun_skips_wait_witness :
  ∃ self' w',
    loop_body nn_resize (VideoRecorder_init 2 1 30 "" true)
      (mkWorld 0 false [] [] []) 0 50000 0
      = Ok (self', w', 0 + 33333) ∧
    slept w' = [] ++ [second / 100] ∧
    now w' = 0 + 50000 + second / 100.
Proof.
  destruct (tick_overrun_skips_wait nn_resize (VideoRecorder_init 2 1 30 "" true)
              (mkWorld 0 false [] [] []) 0 50000 0
              (NdArray 1 2 [[black; black]]) [])
    as (self' & w' & Hb & _ & _ & _ & Hover).
  - reflexivity.
  - by left.
  - reflexivity.
  - vm_compute. lia.
  - exists self', w'. split; [exact Hb|]. apply Hover. vm_compute. discriminate.
Defined.

(** C5 as stated fails: a recorder at 30 frames per second whose tick
    for [curr_time = 0] starts with the clock already at a tenth of a
    second has overrun its interval before any processing, and the tick
    still sleeps once, a hundredth of a second. *)
Lemma overrun_tick_sleeps_counterexample :
  let self := VideoRecorder_init 2 1 30 "" true in
  let w := mkWorld 100000 false [] [] [] in
  0 + interval self ≤ now w ∧
  ∃ self' w',
    loop_body nn_resize self w 0 0 0 = Ok (self', w', 33333) ∧
    slept w' = [10000] ∧ slept w' ≠ [].
Proof.
  split; [vm_compute; discriminate|].
  eexists _, _. split; [vm_compute; reflexivity|]. simpl. by split.
Qed.

(** ** The services and the session *)

Section Session.

Variable cv2_resize : ndarray → Z → Z → result ndarray.
Variable strftime : Z → string.

Implicit Types (self : VideoRecorder) (w : world) (s : system).


Lemma start_srv_cb_again self w :
  record_flag self = true →
  start_srv_cb self w
  = Ok (self, log "[ros-video-recorder] Record already Started." w).
Proof. intros H. unfold start_srv_cb. by rewrite H. Qed.

(** [stop] on a recorder that is not recording only logs. *)
Lemma stop_srv_cb_again self w :
  record_flag self = false →
  stop_srv_cb self w
  = Ok (self, log "[ros-video-recorder] Record already Stopped." w).
Proof. intros H. unfold stop_srv_cb. by rewrite H. Qed.

(** [stop] while recording to a file ends the recording. *)
Lemma stop_srv_cb_with_file self w file :
  record_flag self = true → output_file self = Some file →
  ∃ self' w',
    stop_srv_cb self w = Ok (self', w') ∧
    record_flag self' = false ∧ end_time self' = now w.
Proof.
  intros H Hf. unfold stop_srv_cb, terminate. rewrite H. simpl. rewrite Hf.
  by eexists _, _.
Qed.

(** [stop] while recording with [output_file] never assigned raises. *)
Lemma stop_srv_cb_without_file self w :
  record_flag self = true → output_file self = None →
  stop_srv_cb self w = Raise (AttributeError "output_file").
Proof.
  intros H Hf. unfold stop_srv_cb, terminate. rewrite H. simpl. by rewrite Hf.
Qed.




End Session.



(** C3 fails on the code: with no output path (the default) the
    attribute [output_file] is never assigned; the recorder is started
    and records, and the stop request then raises [AttributeError] in
    [terminate] instead of returning. *)
Lemma stop_without_output_path_raises :
  let s0 := mkSystem (VideoRecorder_init 640 480 30 "" false)
              (mkWorld 0 false [] [] []) InSpin in
  ∃ s1,
    run nn_resize seconds_text s0 [CallStart; MainStep 0 0] = Ok s1 ∧
    status_of s1 = Recording ∧
    record_flag (recorder s1) = true ∧
    output_file (recorder s1) = None ∧
    step nn_resize seconds_text s1 CallStop = Raise (AttributeError "output_file").
Proof.
  eexists. split; [vm_compute; reflexivity|]. by split_and!.
Qed.

(** * Further properties of the code *)

(** ** More on the frame buffer *)

Section BufferMore.

Implicit Types (self : VideoFrames) (l fs : list (Z * ndarray)) (t : Z).

(** On a buffer a source can produce, trimming discards a prefix of
    the buffer whose frames are no later than the frame it answers, so
    every stored frame later than the query time is kept. *)
Theorem trim_discards_only_older self t img self' :
  reachable self →
  get_latest self t true = (Some img, self') →
  ∃ ts dropped,
    frames self = dropped ++ frames self' ∧
    head (frames self') = Some (ts, img) ∧
    Forall (λ f, f.1 ≤ ts) dropped ∧
    ∀ f, f ∈ frames self → t < f.1 → f ∈ frames self'.
Proof.
  intros Hr Hq. apply reachable_nondecreasing in Hr.
  destruct (get_latest_sorted self t true Hr)
    as [[Hn _]|(ts & img' & l1 & l2 & Hspl & H1 & Hts & H2 & Hs)]; [congruence|].
  rewrite Hs in Hq. injection Hq as -> <-. simpl.
  exists ts, l1. split_and!; try done.
  intros f Hf Hlate. rewrite Hspl in Hf.
  apply elem_of_app in Hf as [Hf|Hf]; [|done].
  apply (proj1 (Forall_forall _ _) H1) in Hf. lia.
Qed.

Lemma trim_discards_only_older_witness :
  ∃ ts dropped,
    [(1, px "a"); (2, px "b"); (5, px "c")]
      = dropped ++ frames (mkVideoFrames [(2, px "b"); (5, px "c")] 0 0 1 1) ∧
    head (frames (mkVideoFrames [(2, px "b"); (5, px "c")] 0 0 1 1))
      = Some (ts, px "b") ∧
    Forall (λ f, f.1 ≤ ts) dropped ∧
    ∀ f, f ∈ [(1, px "a"); (2, px "b"); (5, px "c")] → 3 < f.1 →
         f ∈ frames (mkVideoFrames [(2, px "b"); (5, px "c")] 0 0 1 1).
Proof.
  apply (trim_discards_only_older
           (callback_image (callback_image (callback_image
              (mkVideoFrames [] 0 0 1 1) 1 (px "a")) 2 (px "b")) 5 (px "c"))
           3 (px "b")).
  - repeat (apply reachable_append; [|repeat constructor; simpl; lia]).
    apply reachable_new.
  - reflexivity.
Defined.

(** On a buffer a source can produce, asking again at the same time
    gives the same answer and trims nothing more. *)
Theorem trim_query_idempotent self t answer self' :
  reachable self →
  get_latest self t true = (answer, self') →
  get_latest self' t true = (answer, self').
Proof.
  intros Hr Hq. apply reachable_nondecreasing in Hr.
  destruct (get_latest_sorted self t true Hr)
    as [[Hn _]|(ts & img & l1 & l2 & Hspl & H1 & Hts & H2 & Hs)].
  - rewrite Hn in Hq. injection Hq as <- <-. exact Hn.
  - rewrite Hs in Hq. injection Hq as <- <-.
    by rewrite (get_latest_split _ t true [] (ts, img) l2).
Qed.

Lemma trim_query_idempotent_witness :
  get_latest (mkVideoFrames [(2, px "b"); (5, px "c")] 0 0 1 1) 3 true
  = (Some (px "b"), mkVideoFrames [(2, px "b"); (5, px "c")] 0 0 1 1).
Proof.
  apply (trim_query_idempotent
           (callback_image (callback_image (callback_image
              (mkVideoFrames [] 0 0 1 1) 1 (px "a")) 2 (px "b")) 5 (px "c"))
           3).
  - repeat (apply reachable_append; [|repeat constructor; simpl; lia]).
    apply reachable_new.
  - reflexivity.
Defined.

(** Once a trimming query has answered a frame, no later query answers
    [None], whatever the buffer was and whatever frames are delivered in
    between: the served frame stays in the buffer. *)
Theorem served_source_never_blank self t t' F self' (more : list (Z * ndarray))
    (remove_older : bool) :
  get_latest self t true = (Some F, self') →
  t ≤ t' →
  is_Some (get_latest (foldl (λ s c, callback_image s c.1 c.2) self' more)
             t' remove_older).1.
Proof.
  intros Hq Htt. rewrite get_latest_unfold in Hq.
  destruct (last (filter (λ x, x.1 ≤ t) (frames self))) as [f|] eqn:Hl; [|done].
  injection Hq as _ <-.
  assert (Hne : filter (λ x, x.1 ≤ t) (frames self) ≠ []).
  { intros E. by rewrite E in Hl. }
  pose proof (last_filter_drop (frames self) t Hne) as Hkeep.
  rewrite Hl in Hkeep. apply last_Some_elem_of in Hkeep.
  apply list_elem_of_filter in Hkeep as [Hft Hin].
  rewrite get_latest_unfold, frames_after_appends. simpl.
  destruct (last (filter (λ x, x.1 ≤ t') _)) as [g|] eqn:Hl'; [by eexists|].
  exfalso. apply last_None in Hl'.
  assert (Hmem : f ∈ filter (λ x : Z * ndarray, x.1 ≤ t')
                   (drop (length (filter (λ x : Z * ndarray, (x.1 ≤ t)%Z) (frames self)) - 1)%nat
                      (frames self) ++ more)).
  { apply list_elem_of_filter. split; [lia|]. apply elem_of_app. by left. }
  rewrite Hl' in Hmem. by apply not_elem_of_nil in Hmem.
Qed.

Lemma served_source_never_blank_witness :
  is_Some (get_latest
             (foldl (λ s c, callback_image s c.1 c.2)
                (mkVideoFrames [(2, px "b"); (5, px "c")] 0 0 1 1) [(9, px "d")])
             4 true).1.
Proof.
  apply (served_source_never_blank
           (mkVideoFrames [(1, px "a"); (2, px "b"); (5, px "c")] 0 0 1 1)
           3 4 (px "b")).
  - reflexivity.
  - lia.
Defined.

(** A trimming query at a time no earlier than any stored timestamp
    answers the frame delivered last and leaves only that frame in the
    buffer, whatever the order of the timestamps. *)
Theorem query_after_all_keeps_last self t l f :
  frames self = l ++ [f] →
  (∀ g, g ∈ frames self → g.1 ≤ t) →
  get_latest self t true = (Some f.2, set_frames self [f]).
Proof.
  intros Hfr Hall.
  assert (Hl : Forall (λ x, x.1 ≤ t) l).
  { apply Forall_forall. intros g Hg. apply Hall. rewrite Hfr.
    apply elem_of_app. by left. }
  rewrite (get_latest_split self t true l f []); try done.
  apply Hall. rewrite Hfr. apply elem_of_app. right. apply list_elem_of_here.
Qed.

Lemma query_after_all_keeps_last_witness :
  get_latest (mkVideoFrames [(7, px "a"); (3, px "b")] 0 0 1 1) 8 true
  = (Some (px "b"), mkVideoFrames [(3, px "b")] 0 0 1 1).
Proof.
  apply (query_after_all_keeps_last
           (mkVideoFrames [(7, px "a"); (3, px "b")] 0 0 1 1) 8
           [(7, px "a")] (3, px "b")).
  - reflexivity.
  - simpl. intros g Hg.
    apply elem_of_cons in Hg as [->|Hg]; [simpl; lia|].
    apply list_elem_of_singleton in Hg as ->. simpl; lia.
Defined.

End BufferMore.

(** ** More on the compositor *)

Section CompositorMore.

Variable cv2_resize : ndarray → Z → Z → result ndarray.

Hypothesis cv2_resize_shape : ∀ src w h resized,
  cv2_resize src w h = Ok resized →
  nd_wf resized ∧ Z.of_nat (nd_rows resized) = h ∧ Z.of_nat (nd_cols resized) = w.

Implicit Types (frame_w : VideoFrames) (canvas : ndarray) (t : Z) (i j : nat).

Lemma draw_source_buffer frame_w t canvas canvas' frame_w' :
  draw_source cv2_resize frame_w t canvas = Ok (canvas', frame_w') →
  frame_w' = (get_latest frame_w t true).2.
Proof.
  unfold draw_source.
  destruct (get_latest frame_w t true) as [[f|] fw1]; simpl.
  - destruct (cv2_resize f _ _) as [resized| |]; simpl; [|done..].
    destruct (setitem_slices _ _ _ _ _ _) as [c1| |]; simpl; [|done..].
    by intros [= _ <-].
  - by intros [= _ <-].
Qed.

Lemma draw_sources_buffers ws t canvas canvas' ws' :
  draw_sources cv2_resize ws t canvas = Ok (canvas', ws') →
  ws' = (λ frame_w, (get_latest frame_w t true).2) <$> ws.
Proof.
  revert canvas canvas' ws'.
  induction ws as [|frame_w ws IH]; intros canvas canvas' ws'; simpl.
  - by intros [= _ <-].
  - destruct (draw_source cv2_resize frame_w t canvas) as [[c1 fw1]| |] eqn:H1;
      simpl; [|done..].
    destruct (draw_sources cv2_resize ws t c1) as [[c2 ws2]| |] eqn:H2;
      simpl; [|done..].
    intros [= _ <-]. f_equal; [by eapply draw_source_buffer | by eapply IH].
Qed.

Lemma compose_trims_buffers_of ws height width t canvas ws' :
  compose cv2_resize ws height width t = Ok (canvas, ws') →
  ws' = (λ frame_w, (get_latest frame_w t true).2) <$> ws.
Proof.
  unfold compose.
  destruct (np_zeros height width) as [c0| |]; simpl; [|done..].
  apply draw_sources_buffers.
Qed.

(** The only thing a tick does to the sources is the trimming query:
    after composing, every source has the buffer its own
    [get_latest(curr_time)] leaves and the region it had, in the same
    order. *)
Theorem compose_trims_each_buffer ws height width t canvas ws' :
  compose cv2_resize ws height width t = Ok (canvas, ws') →
  ws' = (λ frame_w, (get_latest frame_w t true).2) <$> ws ∧
  length ws' = length ws ∧
  ∀ k frame_w frame_w',
    ws !! k = Some frame_w → ws' !! k = Some frame_w' →
    target_x frame_w' = target_x frame_w ∧ target_y frame_w' = target_y frame_w ∧
    target_w frame_w' = target_w frame_w ∧ target_h frame_w' = target_h frame_w.
Proof.
  unfold compose.
  destruct (np_zeros height width) as [c0| |]; simpl; [|done..].
  intros Hd. apply draw_sources_buffers in Hd. subst ws'.
  split; [done|]. split; [by rewrite length_fmap|].
  intros k fw fw' Hk Hk'. rewrite list_lookup_fmap, Hk in Hk'.
  simpl in Hk'. injection Hk' as <-.
  rewrite get_latest_unfold.
  by destruct (last (filter (λ x, x.1 ≤ t) (frames fw))).
Qed.

Lemma draw_sources_app ws1 ws2 t canvas canvas' ws' :
  draw_sources cv2_resize (ws1 ++ ws2) t canvas = Ok (canvas', ws') →
  ∃ canvas1 ws1' ws2',
    draw_sources cv2_resize ws1 t canvas = Ok (canvas1, ws1') ∧
    draw_sources cv2_resize ws2 t canvas1 = Ok (canvas', ws2').
Proof.
  revert canvas canvas' ws'.
  induction ws1 as [|frame_w ws1 IH]; intros canvas canvas' ws'; simpl.
  - intros H. by eexists _, _, _.
  - destruct (draw_source cv2_resize frame_w t canvas) as [[c1 fw1]| |] eqn:H1;
      simpl; [|done..].
    destruct (draw_sources cv2_resize (ws1 ++ ws2) t c1) as [[c2 ws2']| |] eqn:H2;
      simpl; [|done..].
    intros [= <- <-].
    destruct (IH _ _ _ H2) as (c3 & w1' & w2' & Ha & Hb).
    rewrite Ha. simpl. by eexists _, _, _.
Qed.

(** Where rectangles overlap, the last source in configuration order
    that has a frame wins: a pixel of the rectangle of a source with a
    frame, whose region fits the canvas, shows that source's resized
    frame when no source after it draws on the pixel, whatever the
    sources before it drew. *)
Theorem overlap_last_source_wins ws1 frame_w ws2 t canvas canvas' ws' f resized i j :
  nd_wf canvas →
  region_fits frame_w (Z.of_nat (nd_rows canvas)) (Z.of_nat (nd_cols canvas)) →
  (get_latest frame_w t true).1 = Some f →
  cv2_resize f (target_w frame_w) (target_h frame_w) = Ok resized →
  draw_sources cv2_resize (ws1 ++ frame_w :: ws2) t canvas = Ok (canvas', ws') →
  (i < nd_rows resized)%nat → (j < nd_cols resized)%nat →
  (∀ other, other ∈ ws2 →
     draws_on other t (nd_rows canvas) (nd_cols canvas)
       (Z.to_nat (target_y frame_w) + i) (Z.to_nat (target_x frame_w) + j) = false) →
  nd_get canvas' (Z.to_nat (target_y frame_w) + i) (Z.to_nat (target_x frame_w) + j)
  = nd_get resized i j.
Proof using cv2_resize_shape.
  intros Hwf (Hx & Hy & Hw & Hh & Hxw & Hyh) Hf Hres Hd Hi Hj Hno.
  destruct (draw_sources_app _ _ _ _ _ _ Hd) as (c1 & w1' & w2' & H1 & H2).
  destruct (draw_sources_inv _ _ _ _ _ _ H1) as (Hr1 & Hc1 & Hwf1 & _).
  simpl in H2.
  destruct (draw_source cv2_resize frame_w t c1) as [[c2 fw']| |] eqn:Hs;
    simpl in H2; [|done..].
  destruct (draw_sources cv2_resize ws2 t c2) as [[c3 ws3]| |] eqn:H3;
    simpl in H2; [|done..].
  injection H2 as <- _.
  destruct (cv2_resize_shape _ _ _ _ Hres) as (Hrwf & Hrr & Hrc).
  destruct (setitem_slices_fits c1 (target_x frame_w) (target_y frame_w)
              (target_w frame_w) (target_h frame_w) resized)
    as (_ & _ & c2' & Hset & Hwf2 & Hr2 & Hc2 & Hpx); try done;
    [by apply Hwf1|lia|lia|].
  assert (c2 = c2') as ->.
  { unfold draw_source in Hs.
    destruct (get_latest frame_w t true) as [o fw1]. simpl in Hf. subst o.
    simpl in Hs. rewrite Hres in Hs. simpl in Hs. rewrite Hset in Hs.
    simpl in Hs. by injection Hs as <- _. }
  destruct (draw_sources_inv _ _ _ _ _ _ H3) as (_ & _ & _ & Hout).
  rewrite Hout; [by apply Hpx|].
  intros other Ho. rewrite Hr2, Hc2, Hr1, Hc1. by apply Hno.
Qed.

(** A region that sticks out of the canvas is not clipped: when a
    source with a frame has non-negative offsets and a width above one
    reaching past the right edge, or a height above one reaching past
    the bottom edge, drawing it raises [ValueError]. *)
Theorem region_past_edge_raises frame_w t canvas f resized :
  (get_latest frame_w t true).1 = Some f →
  cv2_resize f (target_w frame_w) (target_h frame_w) = Ok resized →
  0 ≤ target_x frame_w → 0 ≤ target_y frame_w →
  (1 < target_w frame_w ∧
   Z.of_nat (nd_cols canvas) < target_x frame_w + target_w frame_w) ∨
  (1 < target_h frame_w ∧
   Z.of_nat (nd_rows canvas) < target_y frame_w + target_h frame_w) →
  draw_source cv2_resize frame_w t canvas
  = Raise (ValueError "could not broadcast input array").
Proof using cv2_resize_shape.
  intros Hf Hres Hx Hy Hout.
  destruct (cv2_resize_shape _ _ _ _ Hres) as (_ & Hrr & Hrc).
  unfold draw_source.
  destruct (get_latest frame_w t true) as [o fw1]. simpl in Hf. subst o.
  simpl. rewrite Hres. simpl.
  unfold setitem_slices, slice_indices, adjust_index.
  destruct (Z.ltb_spec (target_y frame_w) 0); [lia|].
  destruct (Z.ltb_spec (target_y frame_w + target_h frame_w) 0);
    destruct (Z.ltb_spec (target_x frame_w) 0); try lia;
    destruct (Z.ltb_spec (target_x frame_w + target_w frame_w) 0);
    (destruct (broadcast_ok (nd_rows resized) _ && broadcast_ok (nd_cols resized) _)
       eqn:E; [|done]);
    exfalso; apply andb_true_iff in E as [E1 E2];
    unfold broadcast_ok in E1, E2;
    apply orb_true_iff in E1 as [E1|E1]; apply orb_true_iff in E2 as [E2|E2];
    apply Nat.eqb_eq in E1, E2; lia.
Qed.

End CompositorMore.

Lemma compose_trims_each_buffer_witness :
  [mkVideoFrames [(2, px "b"); (5, px "c")] 0 0 1 1]
  = (λ frame_w, (get_latest frame_w 3 true).2)
      <$> [mkVideoFrames [(1, px "a"); (2, px "b"); (5, px "c")] 0 0 1 1].
Proof.
  apply (compose_trims_each_buffer nn_resize
           [mkVideoFrames [(1, px "a"); (2, px "b"); (5, px "c")] 0 0 1 1]
           1 1 3 (px "b")).
  reflexivity.
Defined.

Lemma overlap_last_source_wins_witness :
  nd_get (px "b") (Z.to_nat 0 + 0) (Z.to_nat 0 + 0) = nd_get (px "b") 0 0.
Proof.
  apply (overlap_last_source_wins nn_resize nn_resize_shape
           [mkVideoFrames [(0, px "a")] 0 0 1 1]
           (mkVideoFrames [(0, px "b")] 0 0 1 1) [] 0
           (NdArray 1 1 [[black]]) (px "b")
           [mkVideoFrames [(0, px "a")] 0 0 1 1; mkVideoFrames [(0, px "b")] 0 0 1 1]
           (px "b") (px "b") 0 0).
  - split; simpl; [done|]. by repeat constructor.
  - unfold region_fits. simpl. lia.
  - reflexivity.
  - reflexivity.
  - reflexivity.
  - simpl. lia.
  - simpl. lia.
  - intros other Ho. by apply not_elem_of_nil in Ho.
Defined.

Lemma region_past_edge_raises_witness :
  draw_source nn_resize (mkVideoFrames [(0, px "a")] 1 0 2 1) 0
    (NdArray 1 2 [[black; black]])
  = Raise (ValueError "could not broadcast input array").
Proof.
  apply (region_past_edge_raises nn_resize nn_resize_shape
           (mkVideoFrames [(0, px "a")] 1 0 2 1) 0 (NdArray 1 2 [[black; black]])
           (px "a") (NdArray 1 2 [[("a", "a", "a"); ("a", "a", "a")]]%byte)).
  - reflexivity.
  - reflexivity.
  - simpl. lia.
  - simpl. lia.
  - left. simpl. lia.
Defined.


(** ** More on the tick loop *)

Section TickMore.

Variable cv2_resize : ndarray → Z → Z → result ndarray.
Variable strftime : Z → string.

Hypothesis cv2_resize_shape : ∀ src w h resized,
  cv2_resize src w h = Ok resized →
  nd_wf resized ∧ Z.of_nat (nd_rows resized) = h ∧ Z.of_nat (nd_cols resized) = w.
Hypothesis cv2_resize_returns : ∀ src w h,
  picture src → 0 < w → 0 < h → ∃ resized, cv2_resize src w h = Ok resized.

Implicit Types (self : VideoRecorder) (w : world) (s : system).

(** The waiting loop sleeps whole intervals: it returns as soon as the
    clock has reached [curr_time + interval], so when it had to wait it
    wakes less than one interval after that deadline, and when the
    deadline has passed it returns the world as it is. *)
Theorem wait_loop_wakes_within_interval fuel curr_time itv w :
  0 < itv →
  (Z.to_nat (curr_time + itv - now w) ≤ fuel)%nat →
  ∃ w' n,
    wait_loop fuel curr_time itv w = Ok w' ∧
    slept w' = slept w ++ replicate n itv ∧
    now w' = now w + Z.of_nat n * itv ∧
    curr_time + itv ≤ now w' ∧
    (now w < curr_time + itv → now w' < curr_time + itv + itv) ∧
    (curr_time + itv ≤ now w → w' = w).
Proof.
  intros Hitv. revert w. induction fuel as [|fuel IH]; intros w Hfuel.
  - exists w, 0%nat. simpl.
    destruct (Z.ltb_spec (now w) (curr_time + itv)); [lia|].
    split_and!; try done; [by rewrite app_nil_r | lia | lia].
  - simpl. destruct (Z.ltb_spec (now w) (curr_time + itv)).
    + destruct (IH (rospy_sleep itv w)) as (w' & n & Hw & Hs & Hn & Hd & Hup & Hsame).
      { simpl. lia. }
      exists w', (S n). simpl in *. split_and!; try done.
      * by rewrite Hs, <- app_assoc.
      * lia.
      * intros _. destruct (Z.lt_ge_cases (now w + Z.max 0 itv) (curr_time + itv)) as [Hlt|Hge].
        -- by apply Hup.
        -- rewrite (Hsame Hge). simpl. lia.
      * lia.
    + exists w, 0%nat. split_and!; try done; [by rewrite app_nil_r | lia | lia].
Qed.

End TickMore.

Lemma wait_loop_wakes_within_interval_witness :
  ∃ w' n,
    wait_loop 9 0 4 (mkWorld 1 false [] [] []) = Ok w' ∧
    slept w' = [] ++ replicate n 4 ∧
    now w' = 1 + Z.of_nat n * 4 ∧
    0 + 4 ≤ now w' ∧
    (1 < 0 + 4 → now w' < 0 + 4 + 4) ∧
    (0 + 4 ≤ 1 → w' = mkWorld 1 false [] [] []).
Proof.
  apply (wait_loop_wakes_within_interval 9 0 4 (mkWorld 1 false [] [] [])).
  - lia.
  - simpl. lia.
Defined.

(** ** Runs of the main thread *)

Section TickRun.

Variable cv2_resize : ndarray → Z → Z → result ndarray.
Variable strftime : Z → string.

Hypothesis cv2_resize_shape : ∀ src w h resized,
  cv2_resize src w h = Ok resized →
  nd_wf resized ∧ Z.of_nat (nd_rows resized) = h ∧ Z.of_nat (nd_cols resized) = w.
Hypothesis cv2_resize_returns : ∀ src w h,
  picture src → 0 < w → 0 < h → ∃ resized, cv2_resize src w h = Ok resized.

Implicit Types (self : VideoRecorder) (w : world) (s : system).

(** The iteration of [start_record] once its canvas is composed. *)
Lemma loop_body_composed self w curr_time work fuel canvas ws :
  compose cv2_resize (frame_wrappers self) (output_height self)
    (output_width self) curr_time = Ok (canvas, ws) →
  loop_body cv2_resize self w curr_time work fuel =
    let self1 := set_output (set_frame_wrappers self ws) (output_file self)
                   (writer_write canvas <$> video_writer self) in
    let w1 := rospy_sleep (second / 100)
                (elapse work (if pub_img self then publish canvas w else w)) in
    '(self2, w2) ← (if is_shutdown w && (end_time self <? 0)
                    then terminate self1 w1 else Ok (self1, w1));
    w3 ← wait_loop fuel curr_time (interval self2) w2;
    Ok (self2, w3, curr_time + interval self2).
Proof.
  intros Hc. unfold loop_body. rewrite Hc. simpl.
  by destruct (pub_img self).
Qed.

Lemma compose_returns ws height width t :
  0 ≤ height → 0 ≤ width → valid_sources ws height width →
  ∃ canvas ws', compose cv2_resize ws height width t = Ok (canvas, ws').
Proof using cv2_resize_shape cv2_resize_returns.
  intros Hh Hw Hall. unfold compose.
  destruct (np_zeros_spec height width Hh Hw) as (c0 & Hz & Hwf & Hr & Hc & _).
  rewrite Hz. simpl. apply draw_sources_returns; try done.
  rewrite Hr, Hc, !Z2Nat.id by done. exact Hall.
Qed.

Lemma valid_sources_trimmed ws height width t :
  valid_sources ws height width →
  valid_sources ((λ frame_w, (get_latest frame_w t true).2) <$> ws) height width.
Proof.
  unfold valid_sources. intros Hall. apply Forall_fmap.
  eapply Forall_impl; [exact Hall|]. simpl. intros fw [Hfit Hpics].
  rewrite get_latest_unfold.
  destruct (last (filter (λ x, x.1 ≤ t) (frames fw))); simpl; [|done].
  split; [done|]. by apply Forall_drop.
Qed.

(** One tick of a recording that is on. *)
Lemma main_step_ticking s curr_time work fuel :
  ticking s curr_time → 0 ≤ work →
  (Z.to_nat (interval (recorder s)) ≤ fuel)%nat →
  ∃ s' canvas,
    main_step cv2_resize strftime s work fuel = Ok s' ∧
    ticking s' (curr_time + interval (recorder s)) ∧
    interval (recorder s') = interval (recorder s) ∧
    pub_img (recorder s') = pub_img (recorder s) ∧
    video_writer (recorder s') = writer_write canvas <$> video_writer (recorder s) ∧
    published (outside s')
      = (if pub_img (recorder s) then published (outside s) ++ [canvas]
         else published (outside s)).
Proof using cv2_resize_shape cv2_resize_returns.
  intros (Hm & Hf & He & Hsh & Hc & Hi & Hh & Hw & Hv & Hvw) Hwork Hfuel.
  destruct (compose_returns (frame_wrappers (recorder s)) _ _ curr_time Hh Hw Hv)
    as (canvas & ws & Hcomp).
  unfold main_step. rewrite Hm, Hf.
  destruct (Z.ltb_spec (end_time (recorder s)) 0); [|lia]. simpl.
  rewrite (loop_body_composed _ _ _ _ _ _ _ Hcomp). cbv zeta.
  rewrite Hsh. simpl.
  assert (Hpause : 0 ≤ second / 100) by (vm_compute; discriminate).
  destruct (wait_loop_returns fuel curr_time (interval (recorder s))
              (rospy_sleep (second / 100)
                 (elapse work
                    (if pub_img (recorder s) then publish canvas (outside s)
                     else outside s))) Hi)
    as (w3 & n & Hwl & Hd & _ & _ & Hsh3 & _ & Hp3).
  { assert (now (if pub_img (recorder s) then publish canvas (outside s)
                 else outside s) = now (outside s)) as Hn
      by by destruct (pub_img (recorder s)).
    simpl. rewrite Hn. lia. }
  rewrite Hwl. simpl. eexists _, canvas. split; [reflexivity|].
  apply compose_trims_buffers_of in Hcomp. subst ws.
  split_and!; simpl; try done.
  - unfold ticking. simpl. split_and!; try done.
    + rewrite Hsh3. simpl. by destruct (pub_img (recorder s)).
    + by apply valid_sources_trimmed.
    + intros vw Hvw'. destruct (video_writer (recorder s)) as [vw0|] eqn:E; [|done].
      simpl in Hvw'. injection Hvw' as <-. unfold writer_write.
      by rewrite (Hvw vw0 eq_refl).
  - rewrite Hp3. simpl. by destruct (pub_img (recorder s)).
Qed.

Lemma run_app s es1 es2 :
  run cv2_resize strftime s (es1 ++ es2)
  = s' ← run cv2_resize strftime s es1; run cv2_resize strftime s' es2.
Proof.
  revert s. induction es1 as [|e es1 IH]; intros s; simpl; [done|].
  destruct (step cv2_resize strftime s e) as [s1| |]; simpl; [|done..].
  apply IH.
Qed.

Lemma written_after_write self canvas vw :
  video_writer self = Some vw → vw_released vw = false →
  writer_write canvas <$> video_writer self
  = Some (mkVideoWriter (vw_file vw) (vw_written vw ++ [canvas]) false).
Proof. intros -> Hr. simpl. unfold writer_write. by rewrite Hr. Qed.

(** A delivered picture changes nothing but its source's buffer. *)
Lemma deliver_ticking s curr_time k cv_image :
  ticking s curr_time → picture cv_image →
  ∃ s',
    step cv2_resize strftime s (Deliver k cv_image) = Ok s' ∧
    ticking s' curr_time ∧
    interval (recorder s') = interval (recorder s) ∧
    pub_img (recorder s') = pub_img (recorder s) ∧
    video_writer (recorder s') = video_writer (recorder s) ∧
    outside s' = outside s.
Proof.
  intros (Hm & Hf & He & Hsh & Hc & Hi & Hh & Hw & Hv & Hvw) Hpic.
  eexists. split; [reflexivity|]. simpl. split_and!; try done.
  unfold ticking. simpl. split_and!; try done.
  unfold valid_sources in *. apply Forall_alter; [done|].
  intros fw _ [Hfit Hpics]. split; [done|]. simpl.
  apply Forall_app. split; [done|]. by apply Forall_singleton.
Qed.

(** A recording that nobody stops counts every tick, whatever pictures
    arrive in between: after a run of ticks and deliveries [curr_time]
    is further by exactly one interval per tick and never ahead of the
    clock, and the writer, and the publisher when one is set, have
    received exactly one canvas per tick; no tick is skipped or
    doubled. *)
Theorem recording_counts_every_tick es s curr_time :
  ticking s curr_time →
  Forall (steady_event (interval (recorder s))) es →
  ∃ s',
    run cv2_resize strftime s es = Ok s' ∧
    ticking s' (curr_time + Z.of_nat (ticks es) * interval (recorder s)) ∧
    interval (recorder s') = interval (recorder s) ∧
    pub_img (recorder s') = pub_img (recorder s) ∧
    (is_Some (video_writer (recorder s)) →
     is_Some (video_writer (recorder s')) ∧
     length (written (recorder s'))
       = (length (written (recorder s)) + ticks es)%nat) ∧
    (pub_img (recorder s) = true →
     length (published (outside s'))
       = (length (published (outside s)) + ticks es)%nat).
Proof using cv2_resize_shape cv2_resize_returns.
  revert s curr_time. induction es as [|e es IH]; intros s curr_time Ht Hes.
  - exists s. split; [done|]. split_and!; try done; try (intros; unfold ticks; simpl; lia).
    by replace (curr_time + Z.of_nat (ticks []) * interval (recorder s))
      with curr_time by (unfold ticks; simpl; lia).
  - apply Forall_cons in Hes as [He Hes].
    destruct e as [| |k img| |work fuel]; simpl in He; try done.
    + destruct (deliver_ticking s curr_time k img Ht He)
        as (s1 & Hstep & Ht1 & Hi1 & Hp1 & Hv1 & Ho1).
      destruct (IH s1 curr_time Ht1) as (s' & Hrun & Ht' & Hi' & Hp' & Hv' & Hpub');
        [by rewrite Hi1|].
      exists s'. split; [cbn [run]; rewrite Hstep; exact Hrun|].
      change (ticks (Deliver k img :: es)) with (ticks es).
      rewrite Hi1 in Ht'. split_and!; try congruence.
      * intros Hsome. rewrite <- Hv1 in Hsome.
        destruct (Hv' Hsome) as [H1 H2]. split; [done|].
        rewrite H2. unfold written. by rewrite Hv1.
      * intros Hpub. rewrite Hpub' by congruence. by rewrite Ho1.
    + destruct He as [Hwork Hfuel].
      destruct (main_step_ticking s curr_time work fuel Ht Hwork Hfuel)
        as (s1 & canvas & Hstep & Ht1 & Hi1 & Hp1 & Hv1 & Hpub1).
      destruct (IH s1 (curr_time + interval (recorder s)) Ht1)
        as (s' & Hrun & Ht' & Hi' & Hp' & Hv' & Hpub'); [by rewrite Hi1|].
      exists s'. split; [cbn [run step]; rewrite Hstep; exact Hrun|].
      change (ticks (MainStep work fuel :: es)) with (S (ticks es)).
      split_and!.
      * rewrite Hi1 in Ht'.
        by replace (curr_time + Z.of_nat (S (ticks es)) * interval (recorder s))
          with (curr_time + interval (recorder s)
                + Z.of_nat (ticks es) * interval (recorder s)) by lia.
      * congruence.
      * congruence.
      * intros [vw Hvw].
        destruct Ht as (_ & _ & _ & _ & _ & _ & _ & _ & _ & Hopen).
        pose proof (written_after_write _ canvas vw Hvw (Hopen vw Hvw)) as Hw1.
        rewrite <- Hv1 in Hw1.
        destruct Hv' as [Hsome Hlen]; [by rewrite Hw1|].
        split; [done|]. rewrite Hlen. unfold written. rewrite Hw1, Hvw. simpl.
        rewrite length_app. simpl. lia.
      * intros Hpub. rewrite Hpub' by congruence. rewrite Hpub1, Hpub.
        rewrite length_app. simpl. lia.
Qed.

(** A ROS shutdown during a recording to a file ends it from inside the
    loop: the tick that sees the shutdown still writes its canvas, then
    [terminate] clears [record_flag] and sets [end_time] to the clock
    after the tick's pause; the next pass leaves the loop and releases
    the writer. *)
Theorem shutdown_finishes_recording s curr_time work fuel canvas ws file :
  main s = InRecord curr_time →
  record_flag (recorder s) = true →
  end_time (recorder s) < 0 →
  is_shutdown (outside s) = true →
  output_file (recorder s) = Some file →
  compose cv2_resize (frame_wrappers (recorder s)) (output_height (recorder s))
    (output_width (recorder s)) curr_time = Ok (canvas, ws) →
  0 < interval (recorder s) →
  (Z.to_nat (curr_time + interval (recorder s)
             - (now (outside s) + work + second / 100)) ≤ fuel)%nat →
  ∃ s1 s2,
    main_step cv2_resize strftime s work fuel = Ok s1 ∧
    record_flag (recorder s1) = false ∧
    end_time (recorder s1) = now (outside s) + work + second / 100 ∧
    video_writer (recorder s1) = writer_write canvas <$> video_writer (recorder s) ∧
    main_step cv2_resize strftime s1 work fuel = Ok s2 ∧
    main s2 = InSpin ∧
    video_writer (recorder s2)
      = writer_release <$> (writer_write canvas <$> video_writer (recorder s)).
Proof.
  intros Hm Hf He Hsh Hfile Hcomp Hi Hfuel.
  unfold main_step at 1. rewrite Hm, Hf.
  destruct (Z.ltb_spec (end_time (recorder s)) 0); [|lia]. simpl.
  rewrite (loop_body_composed _ _ _ _ _ _ _ Hcomp). cbv zeta.
  rewrite Hsh. simpl.
  destruct (Z.ltb_spec (end_time (recorder s)) 0); [|lia].
  unfold terminate. simpl. rewrite Hfile. simpl.
  assert (Hn : now (if pub_img (recorder s) then publish canvas (outside s)
                    else outside s) = now (outside s))
    by by destruct (pub_img (recorder s)).
  assert (Hpause : Z.max 0 (second / 100) = second / 100) by (vm_compute; reflexivity).
  match goal with
  | |- context [wait_loop fuel curr_time ?i ?w0] =>
      destruct (wait_loop_returns fuel curr_time i w0 Hi)
        as (w3 & n & Hwl & _); [simpl; rewrite Hn; lia|]
  end.
  rewrite Hwl. simpl. eexists _, _. split; [reflexivity|]. simpl.
  split; [done|]. split; [rewrite Hn; lia|]. split; [done|].
  unfold main_step. simpl. rewrite andb_false_r. by split_and!.
Qed.

(** The same shutdown during a recording without an output file raises
    [AttributeError] from [terminate], inside the loop. *)
Theorem shutdown_without_file_raises self w curr_time work fuel canvas ws :
  compose cv2_resize (frame_wrappers self) (output_height self)
    (output_width self) curr_time = Ok (canvas, ws) →
  is_shutdown w = true → end_time self < 0 → output_file self = None →
  loop_body cv2_resize self w curr_time work fuel
  = Raise (AttributeError "output_file").
Proof.
  intros Hcomp Hsh He Hfile.
  rewrite (loop_body_composed _ _ _ _ _ _ _ Hcomp). cbv zeta.
  rewrite Hsh. destruct (Z.ltb_spec (end_time self) 0); [|lia]. simpl.
  unfold terminate. simpl. by rewrite Hfile.
Qed.

(** A stop request during a recording to a file is obeyed at the next
    loop head: no further canvas is written, the writer is released
    with the canvases it had, nothing is slept, [end_time] is the clock
    at the request, and the main thread is back in [record_spin]. *)
Theorem stop_ends_loop_without_writing s curr_time work fuel file :
  main s = InRecord curr_time →
  record_flag (recorder s) = true →
  output_file (recorder s) = Some file →
  ∃ s',
    run cv2_resize strftime s [CallStop; MainStep work fuel] = Ok s' ∧
    main s' = InSpin ∧
    record_flag (recorder s') = false ∧
    end_time (recorder s') = now (outside s) ∧
    video_writer (recorder s') = writer_release <$> video_writer (recorder s) ∧
    written (recorder s') = written (recorder s) ∧
    slept (outside s') = slept (outside s) ∧
    now (outside s') = now (outside s).
Proof.
  intros Hm Hf Hfile. simpl. unfold stop_srv_cb, terminate. rewrite Hf. simpl.
  rewrite Hfile. simpl. unfold main_step. simpl. rewrite Hm, andb_false_r.
  eexists. split; [reflexivity|]. simpl. split_and!; try done.
  unfold written. simpl. by destruct (video_writer (recorder s)).
Qed.

(** While nobody asks for a start and ROS is up, the main thread only
    waits: [n] passes leave the recorder as it is, with no output
    opened, sleep [n] seconds and log [n] lines. *)
Theorem idle_spin_only_waits n s work fuel :
  main s = InSpin →
  record_flag (recorder s) = false →
  is_shutdown (outside s) = false →
  ∃ s',
    run cv2_resize strftime s (replicate n (MainStep work fuel)) = Ok s' ∧
    recorder s' = recorder s ∧ main s' = InSpin ∧
    now (outside s') = now (outside s) + Z.of_nat n * second ∧
    slept (outside s') = slept (outside s) ++ replicate n second ∧
    length (loginfo (outside s')) = (length (loginfo (outside s)) + n)%nat.
Proof.
  revert s. induction n as [|n IH]; intros s Hm Hf Hsh.
  - exists s. simpl. split_and!; try done; [lia|by rewrite app_nil_r].
  - simpl. unfold main_step at 1. rewrite Hm, Hf, Hsh. simpl.
    destruct (IH (mkSystem (recorder s)
                    (log "[ros-video-recorder] Record waiting."
                       (rospy_sleep second (outside s))) InSpin))
      as (s' & Hrun & Hr & Hm' & Hn & Hs & Hl); try done.
    exists s'. split; [exact Hrun|]. simpl in *. split_and!; try done.
    + rewrite Hn. unfold second. lia.
    + by rewrite Hs, <- app_assoc.
    + rewrite Hl, length_app. simpl. lia.
Qed.

(** A second start request changes nothing in the recorder and only
    logs; a second stop request, after one that returned, changes
    nothing in the recorder either, so [end_time] is that of the first
    stop, and only logs. *)
Theorem repeated_requests_only_log s :
  (∃ s1 s2,
      step cv2_resize strftime s CallStart = Ok s1 ∧
      step cv2_resize strftime s1 CallStart = Ok s2 ∧
      record_flag (recorder s1) = true ∧
      recorder s2 = recorder s1 ∧ main s2 = main s ∧
      loginfo (outside s2)
        = loginfo (outside s1) ++ ["[ros-video-recorder] Record already Started."]) ∧
  (∀ s1,
      step cv2_resize strftime s CallStop = Ok s1 →
      ∃ s2,
        step cv2_resize strftime s1 CallStop = Ok s2 ∧
        record_flag (recorder s1) = false ∧
        recorder s2 = recorder s1 ∧ main s2 = main s ∧
        loginfo (outside s2)
          = loginfo (outside s1) ++ ["[ros-video-recorder] Record already Stopped."]).
Proof.
  split.
  - simpl. unfold start_srv_cb.
    destruct (record_flag (recorder s)) eqn:Hf; simpl.
    + eexists _, _. split; [reflexivity|]. simpl. rewrite Hf. simpl. by split_and!.
    + eexists _, _. split; [reflexivity|]. simpl. by split_and!.
  - intros s1. simpl. unfold stop_srv_cb, terminate.
    destruct (record_flag (recorder s)) eqn:Hf; simpl.
    + destruct (output_file (recorder s)) as [file|]; simpl; [|done].
      intros [= <-]. simpl. eexists. split; [reflexivity|]. by split_and!.
    + intros [= <-]. simpl. rewrite Hf. simpl. eexists. split; [reflexivity|].
      by split_and!.
Qed.

(** A ROS shutdown before any start request does not leave
    [record_spin] waiting: with an output path set, the output is opened
    under the name of that moment, [start_record] runs no tick and
    releases the writer, and the main thread is in [record_spin] again;
    an output with no canvas has been produced and nothing was slept. *)
Theorem shutdown_while_idle_opens_output s work fuel :
  main s = InSpin →
  record_flag (recorder s) = false →
  is_shutdown (outside s) = true →
  output_path (recorder s) ≠ "" →
  ∃ s',
    run cv2_resize strftime s [MainStep work fuel; MainStep work fuel] = Ok s' ∧
    main s' = InSpin ∧
    output_file (recorder s')
      = Some (str_replace (output_path (recorder s)) "[timestamp]"
                (strftime (now (outside s)))) ∧
    video_writer (recorder s')
      = Some (mkVideoWriter
                (str_replace (output_path (recorder s)) "[timestamp]"
                   (strftime (now (outside s)))) [] true) ∧
    slept (outside s') = slept (outside s).
Proof.
  intros Hm Hf Hsh Hpath.
  assert (H1 : ∃ s1, main_step cv2_resize strftime s work fuel = Ok s1 ∧
             s1 = mkSystem
                    (set_times
                       (set_output (recorder s)
                          (Some (str_replace (output_path (recorder s)) "[timestamp]"
                                   (strftime (now (outside s)))))
                          (Some (mkVideoWriter
                                   (str_replace (output_path (recorder s)) "[timestamp]"
                                      (strftime (now (outside s)))) [] false)))
                       (now (outside s)) (-1))
                    (log ("[ros-video-recorder] Record Started. file=" +:+
                          str_replace (output_path (recorder s)) "[timestamp]"
                            (strftime (now (outside s)))) (outside s))
                    (InRecord (now (outside s)))).
  { unfold main_step. rewrite Hm, Hsh. simpl. unfold open_output.
    rewrite bool_decide_eq_false_2 by done. by eexists. }
  destruct H1 as (s1 & H1 & ->). cbn [run step]. rewrite H1. simpl.
  unfold main_step. simpl. rewrite Hf. simpl.
  eexists. split; [reflexivity|]. by split_and!.
Qed.

End TickRun.

Lemma demo_ticking : ticking (mkSystem demo_recorder demo_world (InRecord 0)) 0.
Proof.
  unfold ticking, valid_sources, region_fits. simpl.
  split_and!; try done; try lia.
  - repeat constructor; simpl; try lia; try apply picture_px.
  - by intros vw [= <-].
Qed.

Lemma recording_counts_every_tick_witness :
  ∃ s',
    run nn_resize seconds_text (mkSystem demo_recorder demo_world (InRecord 0))
      [MainStep 0 4; Deliver 1 (px "b"); MainStep 1 4; MainStep 0 4] = Ok s' ∧
    ticking s' (0 + Z.of_nat 3 * 4) ∧
    length (written (recorder s')) = (0 + 3)%nat ∧
    length (published (outside s')) = (0 + 3)%nat.
Proof.
  destruct (recording_counts_every_tick nn_resize seconds_text
              nn_resize_shape nn_resize_returns
              [MainStep 0 4; Deliver 1 (px "b"); MainStep 1 4; MainStep 0 4]
              (mkSystem demo_recorder demo_world (InRecord 0)) 0)
    as (s' & Hrun & Ht & _ & _ & Hw & Hp).
  - exact demo_ticking.
  - repeat constructor; simpl; try lia; try apply picture_px.
  - exists s'. split; [exact Hrun|]. split; [exact Ht|].
    split; [apply Hw; by eexists | by apply Hp].
Defined.

Lemma shutdown_finishes_recording_witness :
  ∃ s1 s2,
    main_step nn_resize seconds_text
      (mkSystem demo_recorder (shut_down demo_world) (InRecord 0)) 5 0 = Ok s1 ∧
    record_flag (recorder s1) = false ∧
    end_time (recorder s1) = 0 + 5 + second / 100 ∧
    main_step nn_resize seconds_text s1 5 0 = Ok s2 ∧
    main s2 = InSpin.
Proof.
  destruct (shutdown_finishes_recording nn_resize seconds_text
              (mkSystem demo_recorder (shut_down demo_world) (InRecord 0)) 0 5 0
              (NdArray 1 2 [[("a", "a", "a")%byte; black]])
              [mkVideoFrames [(0, px "a")] 0 0 1 1; mkVideoFrames [] 1 0 1 1]
              "/tmp/rec_0.avi")
    as (s1 & s2 & H1 & Hf & He & _ & H2 & Hm & _).
  - reflexivity.
  - reflexivity.
  - simpl. lia.
  - reflexivity.
  - reflexivity.
  - reflexivity.
  - simpl. lia.
  - vm_compute. lia.
  - by exists s1, s2.
Defined.

Lemma shutdown_without_file_raises_witness :
  loop_body nn_resize (VideoRecorder_init 2 1 30 "" true)
    (mkWorld 0 true [] [] []) 0 0 0
  = Raise (AttributeError "output_file").
Proof.
  apply (shutdown_without_file_raises nn_resize (VideoRecorder_init 2 1 30 "" true)
           (mkWorld 0 true [] [] []) 0 0 0 (NdArray 1 2 [[black; black]]) []).
  - reflexivity.
  - reflexivity.
  - simpl. lia.
  - reflexivity.
Defined.

Lemma stop_ends_loop_without_writing_witness :
  ∃ s',
    run nn_resize seconds_text (mkSystem demo_recorder demo_world (InRecord 0))
      [CallStop; MainStep 0 0] = Ok s' ∧
    main s' = InSpin ∧
    record_flag (recorder s') = false ∧
    end_time (recorder s') = 0 ∧
    video_writer (recorder s') = Some (mkVideoWriter "/tmp/rec_0.avi" [] true).
Proof.
  destruct (stop_ends_loop_without_writing nn_resize seconds_text
              (mkSystem demo_recorder demo_world (InRecord 0)) 0 0 0 "/tmp/rec_0.avi")
    as (s' & Hrun & Hm & Hf & He & Hv & _); try reflexivity.
  by exists s'.
Defined.

Lemma idle_spin_only_waits_witness :
  ∃ s',
    run nn_resize seconds_text
      (mkSystem (VideoRecorder_init 2 1 30 "/tmp/a.avi" false) demo_world InSpin)
      (replicate 2 (MainStep 0 0)) = Ok s' ∧
    recorder s' = VideoRecorder_init 2 1 30 "/tmp/a.avi" false ∧
    main s' = InSpin ∧
    now (outside s') = 0 + Z.of_nat 2 * second.
Proof.
  destruct (idle_spin_only_waits nn_resize seconds_text 2
              (mkSystem (VideoRecorder_init 2 1 30 "/tmp/a.avi" false) demo_world InSpin)
              0 0)
    as (s' & Hrun & Hr & Hm & Hn & _); try reflexivity.
  by exists s'.
Defined.

Lemma repeated_requests_only_log_witness :
  ∃ s1 s2,
    step nn_resize seconds_text (mkSystem demo_recorder demo_world (InRecord 0))
      CallStart = Ok s1 ∧
    step nn_resize seconds_text s1 CallStart = Ok s2 ∧
    recorder s2 = recorder s1.
Proof.
  destruct (proj1 (repeated_requests_only_log nn_resize seconds_text
                     (mkSystem demo_recorder demo_world (InRecord 0))))
    as (s1 & s2 & H1 & H2 & _ & Hr & _).
  by exists s1, s2.
Defined.

Lemma shutdown_while_idle_opens_output_witness :
  ∃ s',
    run nn_resize seconds_text
      (mkSystem (VideoRecorder_init 2 1 30 "/tmp/rec_[timestamp].avi" false)
         (mkWorld 7000000 true [] [] []) InSpin)
      [MainStep 0 0; MainStep 0 0] = Ok s' ∧
    main s' = InSpin ∧
    video_writer (recorder s') = Some (mkVideoWriter "/tmp/rec_7.avi" [] true).
Proof.
  destruct (shutdown_while_idle_opens_output nn_resize seconds_text
              (mkSystem (VideoRecorder_init 2 1 30 "/tmp/rec_[timestamp].avi" false)
                 (mkWorld 7000000 true [] [] []) InSpin) 0 0)
    as (s' & Hrun & Hm & _ & Hv & _); try reflexivity.
  - simpl. discriminate.
  - by exists s'.
Defined.

(** ** Start-up *)

Section StartupFacts.

Variable fourcc : string → startup Z.
Variable py_int : string → option Z.
Variable params : gmap string string.

Lemma prefix_other_char old c rest :
  c ≠ "["%char → String.prefix (String "[" old) (String c rest) = false.
Proof.
  intros Hc. cbn [String.prefix].
  destruct (ascii_dec "[" c) as [E|E]; [|done]. by subst.
Qed.

Lemma replace_from_no_bracket new s :
  count_char "[" s = 0%nat → replace_from "[timestamp]" new 0 s = s.
Proof.
  induction s as [|c rest IH]; [done|]. intros Hc.
  simpl in Hc. destruct (bool_decide (c = "["%char)) eqn:E; [lia|].
  apply bool_decide_eq_false_1 in E.
  cbn [replace_from]. rewrite prefix_other_char by done.
  rewrite IH by (simpl in Hc; lia). done.
Qed.

Lemma replace_from_before new pre s :
  count_char "[" pre = 0%nat →
  replace_from "[timestamp]" new 0 (pre +:+ s)
  = pre +:+ replace_from "[timestamp]" new 0 s.
Proof.
  induction pre as [|c rest IH]; [done|]. intros Hc.
  simpl in Hc. destruct (bool_decide (c = "["%char)) eqn:E; [lia|].
  apply bool_decide_eq_false_1 in E.
  change (String c rest +:+ s) with (String c (rest +:+ s)).
  cbn [replace_from]. rewrite prefix_other_char by done.
  rewrite IH by (simpl in Hc; lia). done.
Qed.

(** The name of the output file: with an output path made of one
    placeholder [[timestamp]] between two parts without an opening
    bracket, [record_spin] opens the writer on the path with the
    placeholder replaced by the text of the date at that moment, and
    that name is what [output_file] holds; with a path that has no
    opening bracket the name is the path itself. *)
Theorem output_file_replaces_placeholder strftime self w pre post :
  count_char "[" pre = 0%nat → count_char "[" post = 0%nat →
  (output_path self = pre +:+ "[timestamp]" +:+ post →
   output_file (open_output strftime self w).1
     = Some (pre +:+ strftime (now w) +:+ post) ∧
   video_writer (open_output strftime self w).1
     = Some (mkVideoWriter (pre +:+ strftime (now w) +:+ post) [] false)) ∧
  (output_path self = pre → pre ≠ "" →
   output_file (open_output strftime self w).1 = Some pre ∧
   video_writer (open_output strftime self w).1 = Some (mkVideoWriter pre [] false)).
Proof.
  intros Hpre Hpost. split.
  - intros Hpath. unfold open_output. rewrite Hpath.
    rewrite bool_decide_eq_false_2 by (by destruct pre).
    simpl. unfold str_replace.
    rewrite replace_from_before by done.
    assert (Hat : ∀ new, replace_from "[timestamp]" new 0 ("[timestamp]" +:+ post)
                         = new +:+ replace_from "[timestamp]" new 0 post)
      by (intros new; destruct post; reflexivity).
    rewrite Hat, replace_from_no_bracket by done. done.
  - intros Hpath Hne. unfold open_output. rewrite Hpath.
    rewrite bool_decide_eq_false_2 by done.
    simpl. unfold str_replace. by rewrite replace_from_no_bracket.
Qed.

Lemma split_on_head sep a b :
  count_char sep a = 0%nat →
  head (split_on sep (a +:+ String sep b)) = Some a.
Proof.
  induction a as [|c rest IH]; intros Hc.
  - simpl. by rewrite bool_decide_eq_true_2.
  - simpl in Hc. destruct (bool_decide (c = sep)) eqn:E; [lia|].
    change (String c rest +:+ String sep b) with (String c (rest +:+ String sep b)).
    cbn [split_on]. rewrite E.
    specialize (IH ltac:(simpl in Hc; lia)).
    destruct (split_on sep (rest +:+ String sep b)) as [|first others]; [done|].
    simpl in *. by injection IH as ->.
Qed.

(** The constructor only accepts OpenCV 2 and 3: with a version text
    whose part before the first dot is neither "2" nor "3" it raises,
    [ZeroDivisionError] when [output_fps] is 0, since the interval is
    computed first, and otherwise the exception of [opencv_version]; no
    recorder is made. *)
Theorem constructor_refuses_other_opencv major rest width height output_fps
    output_format output_path initial_start :
  count_char "." major = 0%nat → major ≠ "2" → major ≠ "3" →
  VideoRecorder_new fourcc (major +:+ String "." rest) width height output_fps
    output_format output_path initial_start
  = if output_fps =? 0 then Failed ZeroDivisionError
    else Failed (Exception ("opencv version can not be parsed. v=" +:+ major)).
Proof.
  intros Hdot H2 H3. unfold VideoRecorder_new, opencv_version.
  destruct (output_fps =? 0); [done|].
  rewrite split_on_head by done. simpl.
  rewrite !bool_decide_eq_false_2 by done. done.
Qed.

Lemma length_split_on sep s :
  length (split_on sep s) = S (count_char sep s).
Proof.
  induction s as [|c rest IH]; [done|]. simpl.
  destruct (bool_decide (c = sep)); simpl; [by rewrite IH|].
  destruct (split_on sep rest) as [|first others]; simpl in *; [lia|done].
Qed.

Lemma int_field_started fields k n :
  int_field py_int fields k = Started n →
  ∃ text, fields !! k = Some text ∧ py_int text = Some n.
Proof.
  unfold int_field. destruct (fields !! k) as [text|]; [|done].
  destruct (py_int text) as [m|] eqn:E; [|done]. intros [= <-]. by exists text.
Qed.

Lemma int_field_failed fields k e :
  int_field py_int fields k = Failed e →
  (e = IndexError ∧ (length fields ≤ k)%nat) ∨
  (∃ text, e = IntValueError text ∧ fields !! k = Some text ∧ py_int text = None).
Proof.
  unfold int_field. destruct (fields !! k) as [text|] eqn:Hk.
  - destruct (py_int text) as [m|] eqn:E; [done|]. intros [= <-].
    right. by exists text.
  - intros [= <-]. left. split; [done|]. by apply lookup_ge_None.
Qed.

(** A source is described by at least five fields between commas: a
    description with fewer than four commas is refused, with
    [IndexError] or, if a field before the missing one is not a number,
    with the error of [int]; and a description that is accepted gives
    the region of its fields 1 to 4, in the order x, y, w, h, with an
    empty buffer, whatever follows the fifth field. *)
Theorem parse_source_fields source_info :
  ((count_char "," source_info < 4)%nat →
   ∃ e, parse_source py_int source_info = Failed e ∧
        (e = IndexError ∨ ∃ text, e = IntValueError text ∧ py_int text = None)) ∧
  (∀ vf, parse_source py_int source_info = Started vf →
     (4 ≤ count_char "," source_info)%nat ∧ frames vf = [] ∧
     ∃ tx ty tw th,
       split_on "," source_info !! 1%nat = Some tx ∧ py_int tx = Some (target_x vf) ∧
       split_on "," source_info !! 2%nat = Some ty ∧ py_int ty = Some (target_y vf) ∧
       split_on "," source_info !! 3%nat = Some tw ∧ py_int tw = Some (target_w vf) ∧
       split_on "," source_info !! 4%nat = Some th ∧ py_int th = Some (target_h vf)).
Proof.
  pose proof (length_split_on "," source_info) as Hlen.
  assert (Hstart : ∀ vf, parse_source py_int source_info = Started vf →
     (4 ≤ count_char "," source_info)%nat ∧ frames vf = [] ∧
     ∃ tx ty tw th,
       split_on "," source_info !! 1%nat = Some tx ∧ py_int tx = Some (target_x vf) ∧
       split_on "," source_info !! 2%nat = Some ty ∧ py_int ty = Some (target_y vf) ∧
       split_on "," source_info !! 3%nat = Some tw ∧ py_int tw = Some (target_w vf) ∧
       split_on "," source_info !! 4%nat = Some th ∧ py_int th = Some (target_h vf)).
  { intros vf. unfold parse_source.
    destruct (int_field py_int _ 1) as [x|] eqn:H1; simpl; [|done].
    destruct (int_field py_int _ 2) as [y|] eqn:H2; simpl; [|done].
    destruct (int_field py_int _ 3) as [w|] eqn:H3; simpl; [|done].
    destruct (int_field py_int _ 4) as [h|] eqn:H4; simpl; [|done].
    intros [= <-]. simpl.
    apply int_field_started in H1 as (tx & Hx & Hpx).
    apply int_field_started in H2 as (ty & Hy & Hpy).
    apply int_field_started in H3 as (tw & Hw & Hpw).
    apply int_field_started in H4 as (th & Hh & Hph).
    split; [|split; [done|by exists tx, ty, tw, th]].
    apply lookup_lt_Some in Hh. lia. }
  split; [|exact Hstart].
  intros Hfew.
  destruct (parse_source py_int source_info) as [vf|e] eqn:Hp.
  { destruct (Hstart vf eq_refl) as [Hge _]. lia. }
  exists e. split; [done|]. unfold parse_source in Hp.
  destruct (int_field py_int _ 1) as [x|e1] eqn:H1; simpl in Hp;
    [|injection Hp as <-; apply int_field_failed in H1 as [[-> _]|(t & -> & _ & Ht)];
      [by left | right; by exists t]].
  destruct (int_field py_int _ 2) as [y|e2] eqn:H2; simpl in Hp;
    [|injection Hp as <-; apply int_field_failed in H2 as [[-> _]|(t & -> & _ & Ht)];
      [by left | right; by exists t]].
  destruct (int_field py_int _ 3) as [w|e3] eqn:H3; simpl in Hp;
    [|injection Hp as <-; apply int_field_failed in H3 as [[-> _]|(t & -> & _ & Ht)];
      [by left | right; by exists t]].
  destruct (int_field py_int _ 4) as [h|e4] eqn:H4; simpl in Hp;
    [done|injection Hp as <-; apply int_field_failed in H4 as [[-> _]|(t & -> & _ & Ht)];
      [by left | right; by exists t]].
Qed.

(** The sources are numbered without a gap: when [~source1] to
    [~source k] are set and not empty and the next one is missing or
    empty, exactly [k] sources are read and every parameter with a
    higher number is ignored, however many rounds [num_videos] allows
    beyond [k]. *)
Theorem sources_stop_at_first_gap n idx k l :
  (k < n)%nat →
  (∀ i, (i < k)%nat →
        get_param params ("~source" +:+ pretty (idx + i + 1)%nat) "" ≠ "") →
  get_param params ("~source" +:+ pretty (idx + k + 1)%nat) "" = "" →
  read_sources py_int params n idx = Started l →
  length l = k.
Proof.
  revert idx k l. induction n as [|n IH]; intros idx k l Hk Hset Hgap; [lia|].
  cbn [read_sources]. destruct k as [|k].
  - replace (idx + 0 + 1)%nat with (idx + 1)%nat in Hgap by lia.
    rewrite Hgap. rewrite bool_decide_eq_true_2 by done. by intros [= <-].
  - pose proof (Hset 0%nat ltac:(lia)) as H0.
    replace (idx + 0 + 1)%nat with (idx + 1)%nat in H0 by lia.
    rewrite bool_decide_eq_false_2 by done.
    destruct (parse_source py_int _) as [vf|]; simpl; [|done].
    destruct (read_sources py_int params n (S idx)) as [rest|] eqn:Hr; simpl; [|done].
    intros [= <-]. simpl. f_equal.
    apply (IH (S idx) k rest); [lia| | |done].
    + intros i Hi. replace (S idx + i + 1)%nat with (idx + S i + 1)%nat by lia.
      apply Hset. lia.
    + by replace (S idx + k + 1)%nat with (idx + S k + 1)%nat by lia.
Qed.

End StartupFacts.

Lemma output_file_replaces_placeholder_witness :
  output_file
    (open_output seconds_text
       (VideoRecorder_init 640 480 30 ("/tmp/rec_" +:+ "[timestamp]" +:+ ".avi") false)
       (mkWorld 7000000 false [] [] [])).1
  = Some ("/tmp/rec_" +:+ seconds_text 7000000 +:+ ".avi").
Proof.
  apply (proj1 (output_file_replaces_placeholder seconds_text
                  (VideoRecorder_init 640 480 30
                     ("/tmp/rec_" +:+ "[timestamp]" +:+ ".avi") false)
                  (mkWorld 7000000 false [] [] []) "/tmp/rec_" ".avi"
                  eq_refl eq_refl)).
  reflexivity.
Defined.

Lemma constructor_refuses_other_opencv_witness :
  VideoRecorder_new (λ _, Started 0) ("4" +:+ String "." "5.1") 640 480 30
    "xvid" "" false
  = Failed (Exception ("opencv version can not be parsed. v=" +:+ "4")).
Proof.
  apply (constructor_refuses_other_opencv (λ _, Started 0) "4" "5.1" 640 480 30
           "xvid" "" false); [reflexivity|discriminate|discriminate].
Defined.

Lemma parse_source_fields_witness :
  ∃ e, parse_source digits_int "camera/image,0,0" = Failed e ∧
       (e = IndexError ∨ ∃ text, e = IntValueError text ∧ digits_int text = None).
Proof.
  apply (proj1 (parse_source_fields digits_int "camera/image,0,0")).
  simpl. lia.
Defined.

Lemma sources_stop_at_first_gap_witness :
  length [mkVideoFrames [] 0 0 320 480] = 1%nat.
Proof.
  apply (sources_stop_at_first_gap digits_int
           {[ "~source1" := "left,0,0,320,480"; "~source3" := "right,320,0,320,480" ]}
           1000 0 1 [mkVideoFrames [] 0 0 320 480]).
  - lia.
  - intros i Hi. assert (i = 0%nat) as -> by lia. vm_compute. discriminate.
  - vm_compute. reflexivity.
  - vm_compute. reflexivity.
Defined.

(** ** Catching up after a stall *)

Section TickLag.

Variable cv2_resize : ndarray → Z → Z → result ndarray.
Variable strftime : Z → string.

Hypothesis cv2_resize_shape : ∀ src w h resized,
  cv2_resize src w h = Ok resized →
  nd_wf resized ∧ Z.of_nat (nd_rows resized) = h ∧ Z.of_nat (nd_cols resized) = w.
Hypothesis cv2_resize_returns : ∀ src w h,
  picture src → 0 < w → 0 < h → ∃ resized, cv2_resize src w h = Ok resized.

Implicit Types (self : VideoRecorder) (w : world) (s : system).

(** A tick whose deadline has passed when it starts. *)
Lemma main_step_lagging s curr_time work fuel :
  ticking s curr_time → 0 ≤ work →
  curr_time + interval (recorder s) ≤ now (outside s) →
  ∃ s',
    main_step cv2_resize strftime s work fuel = Ok s' ∧
    ticking s' (curr_time + interval (recorder s)) ∧
    interval (recorder s') = interval (recorder s) ∧
    slept (outside s') = slept (outside s) ++ [second / 100] ∧
    now (outside s') = now (outside s) + work + second / 100.
Proof using cv2_resize_shape cv2_resize_returns.
  intros (Hm & Hf & He & Hsh & Hc & Hi & Hh & Hw & Hv & Hvw) Hwork Hlag.
  destruct (compose_returns cv2_resize cv2_resize_shape cv2_resize_returns
              (frame_wrappers (recorder s)) _ _ curr_time Hh Hw Hv)
    as (canvas & ws & Hcomp).
  unfold main_step. rewrite Hm, Hf.
  destruct (Z.ltb_spec (end_time (recorder s)) 0); [|lia]. simpl.
  rewrite (loop_body_composed _ _ _ _ _ _ _ _ Hcomp). cbv zeta.
  rewrite Hsh. simpl.
  assert (Hpause : Z.max 0 (second / 100) = second / 100) by (vm_compute; reflexivity).
  assert (Hpos : 0 ≤ second / 100) by (vm_compute; discriminate).
  assert (Hn : now (if pub_img (recorder s) then publish canvas (outside s)
                    else outside s) = now (outside s))
    by by destruct (pub_img (recorder s)).
  rewrite wait_loop_overrun by (simpl; rewrite Hn; lia).
  simpl. eexists. split; [reflexivity|].
  apply compose_trims_buffers_of in Hcomp. subst ws.
  split_and!; simpl; try done.
  - unfold ticking. simpl. split_and!; try done.
    + by destruct (pub_img (recorder s)).
    + rewrite Hn. lia.
    + by apply valid_sources_trimmed.
    + intros vw Hvw'. destruct (video_writer (recorder s)) as [vw0|] eqn:E; [|done].
      simpl in Hvw'. injection Hvw' as <-. unfold writer_write.
      by rewrite (Hvw vw0 eq_refl).
  - by destruct (pub_img (recorder s)).
  - rewrite Hn. lia.
Qed.

(** After a stall the loop catches up: while [curr_time] is [n]
    intervals or more behind the clock, the next [n] ticks follow one
    another with no waiting, each sleeping only its pause of a
    hundredth of a second, so the canvases missed during the stall are
    composed afterwards, at the sample times they were due. *)
Theorem lagging_ticks_catch_up n s curr_time work fuel :
  ticking s curr_time → 0 ≤ work →
  curr_time + Z.of_nat n * interval (recorder s) ≤ now (outside s) →
  ∃ s',
    run cv2_resize strftime s (replicate n (MainStep work fuel)) = Ok s' ∧
    ticking s' (curr_time + Z.of_nat n * interval (recorder s)) ∧
    slept (outside s') = slept (outside s) ++ replicate n (second / 100) ∧
    now (outside s') = now (outside s) + Z.of_nat n * (work + second / 100).
Proof using cv2_resize_shape cv2_resize_returns.
  revert s curr_time. induction n as [|n IH]; intros s curr_time Ht Hwork Hlag.
  - exists s. split; [done|]. split_and!.
    + by replace (curr_time + Z.of_nat 0 * interval (recorder s)) with curr_time by lia.
    + by rewrite app_nil_r.
    + lia.
  - assert (Hi : 0 < interval (recorder s)) by (by destruct Ht as (_&_&_&_&_&?&_)).
    assert (Hpos : 0 ≤ second / 100) by (vm_compute; discriminate).
    destruct (main_step_lagging s curr_time work fuel Ht Hwork)
      as (s1 & Hstep & Ht1 & Hi1 & Hs1 & Hn1); [nia|].
    destruct (IH s1 (curr_time + interval (recorder s)) Ht1 Hwork)
      as (s' & Hrun & Ht' & Hs' & Hn'); [rewrite Hi1, Hn1; nia|].
    exists s'. split; [cbn [replicate run step]; rewrite Hstep; exact Hrun|].
    rewrite Hi1 in Ht'. split_and!.
    + by replace (curr_time + Z.of_nat (S n) * interval (recorder s))
        with (curr_time + interval (recorder s) + Z.of_nat n * interval (recorder s))
        by lia.
    + rewrite Hs', Hs1, <- app_assoc. done.
    + rewrite Hn', Hn1. lia.
Qed.

End TickLag.

Lemma lagging_ticks_catch_up_witness :
  ∃ s',
    run nn_resize seconds_text
      (mkSystem demo_recorder (mkWorld 100 false [] [] []) (InRecord 0))
      (replicate 3 (MainStep 0 0)) = Ok s' ∧
    ticking s' (0 + Z.of_nat 3 * 4) ∧
    slept (outside s') = [] ++ replicate 3 (second / 100) ∧
    now (outside s') = 100 + Z.of_nat 3 * (0 + second / 100).
Proof.
  apply (lagging_ticks_catch_up nn_resize seconds_text nn_resize_shape
           nn_resize_returns 3
           (mkSystem demo_recorder (mkWorld 100 false [] [] []) (InRecord 0)) 0 0 0).
  - unfold ticking, valid_sources, region_fits. simpl.
    split_and!; try done; try lia.
    + repeat constructor; simpl; try lia; try apply picture_px.
    + by intros vw [= <-].
  - lia.
  - simpl. lia.
Defined.
